(** * astro-tools: the plate-solve result pipeline of [astroprobe.py]

    A shallow embedding of [astroprobe.py] (functions [rm_rf], [parse_buf],
    [solve_image] and [main]) and the properties of the plate-solve
    pipeline stated over it.

    Conventions of the embedding:
    - a Python [str] is a [string]; its characters are the code points
      0..255, so the character classes of [re] are the ones Python uses on
      that range;
    - a Python [float] is a binary64 value, the kernel's [float]; decimal
      strings and [round] go through the exact rational value and a
      correctly rounded division, as CPython's [strtod] and [dtoa] do;
    - a Python [dict] with string keys is a [gmap string _]; the keyword
      arguments of [solve_image], whose order matters, are an association
      list;
    - an exception is a value of [exn]; a computation that may raise returns
      a [result]; a computation that also touches the file system or the
      clock is a function from [world] to a [result] and a new [world]. *)

From Stdlib Require Import ZArith String Ascii List Bool Lia.
From Stdlib Require Import PrimFloat SpecFloat FloatOps.
From stdpp Require Import base option list gmap strings.
Import ListNotations.

Set Warnings "-register-all,-inexact-float".
Local Open Scope string_scope.
Local Open Scope list_scope.
Local Open Scope Z_scope.

(** ** Exceptions and results *)

(** The exception classes that the functions of [astroprobe.py] can meet. *)
Inductive exn : Type :=
| AttributeError   (* [None.groups()], [None.group(1)] *)
| ValueError       (* [float] of a malformed number *)
| KeyError         (* [d[k]] on a missing key *)
| TypeError        (* arithmetic on a value of the wrong type *)
| OverflowError    (* an [int] too large for a [float] *)
| OSError.         (* file system and process errors *)

Inductive result (A : Type) : Type :=
| Ok (a : A)
| Raise (e : exn).
Arguments Ok {A} a.
Arguments Raise {A} e.

Definition bind {A B : Type} (c : result A) (k : A -> result B) : result B :=
  match c with
  | Ok a => k a
  | Raise e => Raise e
  end.

Notation "'let*' x ':=' c 'in' k" := (bind c (fun x => k))
  (at level 10, x pattern, c at level 100, k at level 200).

Definition is_ok {A : Type} (c : result A) : bool :=
  match c with Ok _ => true | Raise _ => false end.

(** ** Python floats *)

Module PyFloat.

(** The binary64 value nearest to [(-1)^neg * m / 10^k], ties to even:
    what [float] gives for a decimal numeral with integer digits [m] and
    [k] digits after the point. The quotient is rounded once, from the
    exact integers. *)
Definition of_decimal (neg : bool) (m : Z) (k : nat) : float :=
  match m with
  | Zpos p =>
      SF2Prim (SFdiv prec emax
                 (S754_finite neg p 0)
                 (S754_finite false (Z.to_pos (10 ^ Z.of_nat k)) 0))
  | _ => if neg then neg_zero else zero
  end.

(** [float(z)] for an [int]: the nearest binary64 value, or
    [OverflowError] when there is none. *)
Definition of_int (z : Z) : result float :=
  let f := SF2Prim (binary_normalize prec emax z 0 false) in
  if is_infinity f then Raise OverflowError else Ok f.

(** [a / b] for two [int]s, [b] positive: the correctly rounded quotient,
    or [OverflowError]. *)
Definition int_truediv (a : Z) (b : positive) : result float :=
  let q :=
    match a with
    | Z0 => zero
    | Zpos p => SF2Prim (SFdiv prec emax (S754_finite false p 0) (S754_finite false b 0))
    | Zneg p => SF2Prim (SFdiv prec emax (S754_finite true p 0) (S754_finite false b 0))
    end in
  if is_infinity q then Raise OverflowError else Ok q.

(** The integer nearest to [num / den], ties to even ([den] positive). *)
Definition div_half_even (num den : Z) : Z :=
  let q := num / den in
  let r := num mod den in
  if 2 * r <? den then q
  else if den <? 2 * r then q + 1
  else if Z.even q then q else q + 1.

(** [round(x, nd)] for a float [x] and [0 <= nd]: the exact value of [x]
    is rounded to [nd] decimals, ties to even, and the decimal numeral
    obtained is read back as a float. Zeros, infinities and NaN are
    returned as they are. *)
Definition round (x : float) (nd : nat) : float :=
  match Prim2SF x with
  | S754_finite s m e =>
      let scale := 10 ^ Z.of_nat nd in
      let n :=
        match e with
        | Zneg pe => div_half_even (Zpos m * scale) (2 ^ Zpos pe)
        | _ => Zpos m * 2 ^ e * scale
        end in
      of_decimal s n nd
  | _ => x
  end.

End PyFloat.

Import PyFloat.

(** ** Python values *)

(** The values that occur in the dictionaries of [astroprobe.py] and in the
    output document. *)
Inductive pyval : Type :=
| VNone
| VBool (b : bool)
| VInt (z : Z)
| VFloat (f : float)
| VStr (s : string)
| VList (l : list pyval)
| VDict (d : gmap string pyval).

(** A Python [dict] with string keys. *)
Abbreviation dict := (gmap string pyval).

(** [d[k]]. *)
Definition getitem (d : dict) (k : string) : result pyval :=
  match d !! k with
  | Some v => Ok v
  | None => Raise KeyError
  end.

(** [dict(pairs)]: a later pair replaces an earlier one with the same key. *)
Definition dict_of_pairs (l : list (string * pyval)) : dict :=
  fold_left (fun d kv => <[kv.1 := kv.2]> d) l ∅.

(** [zip(xs, ys)] stops at the end of the shorter list. *)
Fixpoint zip {A B : Type} (xs : list A) (ys : list B) : list (A * B) :=
  match xs, ys with
  | x :: xs', y :: ys' => (x, y) :: zip xs' ys'
  | _, _ => []
  end.

(** The truth value of an object, as [if] and [or] test it. *)
Definition truthy (v : pyval) : bool :=
  match v with
  | VNone => false
  | VBool b => b
  | VInt z => negb (z =? 0)
  | VFloat f => negb (is_zero f)
  | VStr s => negb (String.eqb s "")
  | VList l => match l with [] => false | _ => true end
  | VDict d => negb (bool_decide (d = ∅))
  end.

(** [[f(x) for x in l]]: left to right, the first exception ends it. *)
Fixpoint comprehension {A B : Type} (f : A -> result B) (l : list A) : result (list B) :=
  match l with
  | [] => Ok []
  | x :: l' =>
      let* y := f x in
      let* ys := comprehension f l' in
      Ok (y :: ys)
  end.

(** ** Reading a number: [float(s)] and [int(s)] *)

Definition is_digit (c : ascii) : bool :=
  (48 <=? nat_of_ascii c)%nat && (nat_of_ascii c <=? 57)%nat.

Definition digit_value (c : ascii) : Z := Z.of_nat (nat_of_ascii c) - 48.

(** Reads the longest run of decimal digits at the head of [s], continuing
    the numeral [acc]; returns the value, the number of digits read and
    what follows them. *)
Fixpoint read_digits (s : list ascii) (acc : Z) (n : nat) : Z * nat * list ascii :=
  match s with
  | c :: s' =>
      if is_digit c then read_digits s' (10 * acc + digit_value c) (S n)
      else (acc, n, s)
  | [] => (acc, n, [])
  end.

(** [float(s)] for a string [s] over the digits, [.] and [-], which is
    what the groups [[0-9.]+] and [[0-9.-]+] capture: an optional sign,
    then digits with at most one point and at least one digit; anything
    else is a [ValueError]. *)
Definition py_float (s : string) : result float :=
  let cs := list_ascii_of_string s in
  let '(neg, body) :=
    match cs with
    | "-"%char :: r => (true, r)
    | _ => (false, cs)
    end in
  let '(ip, ni, r1) := read_digits body 0 0 in
  match r1 with
  | [] => if (ni =? 0)%nat then Raise ValueError else Ok (of_decimal neg ip 0)
  | "."%char :: r2 =>
      let '(m, nf, r3) := read_digits r2 ip 0 in
      match r3 with
      | [] => if (ni + nf =? 0)%nat then Raise ValueError else Ok (of_decimal neg m nf)
      | _ :: _ => Raise ValueError
      end
  | _ :: _ => Raise ValueError
  end.

(** The limit of CPython on the digits of a numeral that [int] converts
    ([sys.int_info.default_max_str_digits]). *)
Definition int_max_str_digits : nat := 4300.

(** [int(s)] for a string of decimal digits, which is what [\d+]
    captures: a [ValueError] on anything else, and on a numeral of more
    digits than the limit, leading zeros counted. *)
Definition py_int (s : string) : result Z :=
  let '(v, n, r) := read_digits (list_ascii_of_string s) 0 0 in
  match r with
  | [] =>
      if (n =? 0)%nat then Raise ValueError
      else if (int_max_str_digits <? n)%nat then Raise ValueError
      else Ok v
  | _ :: _ => Raise ValueError
  end.

(** ** Regular expressions: the fragment of [re] that [astroprobe.py] uses *)

Module Re.

(** A character class. *)
Inductive cls : Type :=
| Dot                                    (* [.]: anything but a newline *)
| Digit                                  (* [\d] *)
| NotSpace                               (* [\S] *)
| OneOf (ranges : list (ascii * ascii)). (* [[a-z0-9-]] *)

(** An element of a pattern. Repetition applies to one character class,
    and a group is delimited by [GOpen] and [GClose]: the patterns of
    [astroprobe.py] need no more. *)
Inductive item : Type :=
| Chr (c : ascii)     (* a literal character *)
| Any (k : cls)       (* one character of a class *)
| Plus (k : cls)      (* one or more, greedy *)
| Star (k : cls)      (* zero or more, greedy *)
| GOpen               (* [(] *)
| GClose.             (* [)] *)

Abbreviation pattern := (list item).

Definition in_range (c : ascii) (r : ascii * ascii) : bool :=
  (nat_of_ascii r.1 <=? nat_of_ascii c)%nat && (nat_of_ascii c <=? nat_of_ascii r.2)%nat.

(** White space among the code points 0..255. *)
Definition is_space (c : ascii) : bool :=
  let n := nat_of_ascii c in
  ((9 <=? n) && (n <=? 13) || (28 <=? n) && (n <=? 32) || (n =? 133) || (n =? 160))%nat.

Definition in_cls (k : cls) (c : ascii) : bool :=
  match k with
  | Dot => negb (nat_of_ascii c =? 10)%nat
  | Digit => is_digit c
  | NotSpace => negb (is_space c)
  | OneOf ranges => existsb (in_range c) ranges
  end.

(** *** Compiling the text of a pattern *)

(** The inside of a bracket expression, after the [[]: single characters
    and ranges, a [-] before the [[]]] standing for itself. *)
Fixpoint parse_class (s : list ascii) (acc : list (ascii * ascii))
  : option (list (ascii * ascii) * list ascii) :=
  match s with
  | [] => None
  | "]"%char :: r => Some (rev acc, r)
  | a :: r =>
      match r with
      | "-"%char :: r' =>
          match r' with
          | [] => None
          | "]"%char :: _ => parse_class r ((a, a) :: acc)
          | b :: r'' => parse_class r'' ((a, b) :: acc)
          end
      | _ => parse_class r ((a, a) :: acc)
      end
  end.

(** One character class followed by its repetition mark, if any. *)
Definition quantified (k : cls) (single : item) (s : list ascii) : item * list ascii :=
  match s with
  | "+"%char :: r => (Plus k, r)
  | "*"%char :: r => (Star k, r)
  | _ => (single, s)
  end.

Fixpoint compile_from (fuel : nat) (s : list ascii) : option pattern :=
  match fuel with
  | O => None
  | S fuel' =>
      match s with
      | [] => Some []
      | "("%char :: r => option_map (cons GOpen) (compile_from fuel' r)
      | ")"%char :: r => option_map (cons GClose) (compile_from fuel' r)
      | "."%char :: r =>
          let '(i, r') := quantified Dot (Any Dot) r in
          option_map (cons i) (compile_from fuel' r')
      | "["%char :: r =>
          match parse_class r [] with
          | Some (ranges, r') =>
              let '(i, r'') := quantified (OneOf ranges) (Any (OneOf ranges)) r' in
              option_map (cons i) (compile_from fuel' r'')
          | None => None
          end
      | "\"%char :: c :: r =>
          if Ascii.eqb c "d" then
            let '(i, r') := quantified Digit (Any Digit) r in
            option_map (cons i) (compile_from fuel' r')
          else if Ascii.eqb c "S" then
            let '(i, r') := quantified NotSpace (Any NotSpace) r in
            option_map (cons i) (compile_from fuel' r')
          else if Ascii.eqb c "(" || Ascii.eqb c ")" then
            let '(i, r') := quantified (OneOf [(c, c)]) (Chr c) r in
            option_map (cons i) (compile_from fuel' r')
          else None
      | "\"%char :: [] => None
      | "+"%char :: _ => None
      | "*"%char :: _ => None
      | c :: r =>
          let '(i, r') := quantified (OneOf [(c, c)]) (Chr c) r in
          option_map (cons i) (compile_from fuel' r')
      end
  end.

(** [re.compile(text)], on the syntax above. *)
Definition compile (text : string) : option pattern :=
  compile_from (S (String.length text)) (list_ascii_of_string text).

(** *** Matching *)

(** A match: where it starts and ends, and the span of each group in the
    order the groups close, which for patterns without nested groups is
    the order of their numbers. *)
Record mobj : Type := MObj {
  m_start : nat;
  m_end : nat;
  m_spans : list (nat * nat)
}.

(** The longest run of characters of [k] first, then shorter ones, until
    the continuation [rest] matches. *)
Fixpoint greedy (k : cls) (rest : list ascii -> nat -> option (nat * list (nat * nat)))
  (s : list ascii) (pos : nat) : option (nat * list (nat * nat)) :=
  match s with
  | c :: s' =>
      if in_cls k c then
        match greedy k rest s' (S pos) with
        | Some r => Some r
        | None => rest s pos
        end
      else rest s pos
  | [] => rest [] pos
  end.

(** The pattern [p] matched at the head of [s], which is at offset [pos]
    of the text; [opened] are the starts of the groups still open and
    [spans] the groups closed so far, last first. *)
Fixpoint match_here (p : pattern) (opened : list nat) (spans : list (nat * nat))
  (s : list ascii) (pos : nat) {struct p} : option (nat * list (nat * nat)) :=
  match p with
  | [] => Some (pos, rev spans)
  | Chr c :: p' =>
      match s with
      | c' :: s' => if Ascii.eqb c c' then match_here p' opened spans s' (S pos) else None
      | [] => None
      end
  | Any k :: p' =>
      match s with
      | c' :: s' => if in_cls k c' then match_here p' opened spans s' (S pos) else None
      | [] => None
      end
  | Plus k :: p' =>
      match s with
      | c' :: s' =>
          if in_cls k c' then greedy k (match_here p' opened spans) s' (S pos) else None
      | [] => None
      end
  | Star k :: p' => greedy k (match_here p' opened spans) s pos
  | GOpen :: p' => match_here p' (pos :: opened) spans s pos
  | GClose :: p' =>
      match opened with
      | b :: opened' => match_here p' opened' ((b, pos) :: spans) s pos
      | [] => None
      end
  end.

(** The leftmost match at or after the head of [s]. *)
Fixpoint search_from (p : pattern) (s : list ascii) (pos : nat) : option mobj :=
  match match_here p [] [] s pos with
  | Some (e, spans) => Some (MObj pos e spans)
  | None =>
      match s with
      | [] => None
      | _ :: s' => search_from p s' (S pos)
      end
  end.

(** [re.search(p, text)]. *)
Definition search (p : pattern) (text : string) : option mobj :=
  search_from p (list_ascii_of_string text) 0.

(** The matches of [p] from left to right, none overlapping another:
    after a match the scan resumes where it ended; [skip] counts the
    characters still covered by the last match. *)
Fixpoint scan (p : pattern) (s : list ascii) (pos skip : nat) : list mobj :=
  match skip with
  | S skip' =>
      match s with
      | [] => []
      | _ :: s' => scan p s' (S pos) skip'
      end
  | O =>
      match match_here p [] [] s pos with
      | Some (e, spans) =>
          MObj pos e spans ::
            match s with
            | [] => []
            | _ :: s' => scan p s' (S pos) (e - pos - 1)
            end
      | None =>
          match s with
          | [] => []
          | _ :: s' => scan p s' (S pos) 0
          end
      end
  end.

(** The text of the groups of a match: [m.groups()]. *)
Definition groups (text : string) (m : mobj) : list string :=
  map (fun sp => substring sp.1 (sp.2 - sp.1) text) (m_spans m).

(** [m.group(1)]. *)
Definition group1 (text : string) (m : mobj) : string :=
  match groups text m with
  | g :: _ => g
  | [] => ""
  end.

(** [re.findall(p, text)] for a pattern with one group: the text of the
    group in each match, in order of appearance. *)
Definition findall (p : pattern) (text : string) : list string :=
  map (group1 text) (scan p (list_ascii_of_string text) 0 0).

End Re.

(** A literal piece of a pattern. *)
Definition lit (s : string) : Re.pattern := map Re.Chr (list_ascii_of_string s).

(** [needle in hay] for two strings. *)
Fixpoint contains (needle : string) (hay : string) : bool :=
  if String.prefix needle hay then true
  else match hay with
       | EmptyString => false
       | String _ hay' => contains needle hay'
       end.

(** ** The report parser: [parse_buf] *)

(** The patterns of [parse_buf] and [solve_image], each with the text it
    has in the source (see [patterns_compile] below). *)

Definition num : Re.cls := Re.OneOf [("0", "9"); (".", ".")]%char.
Definition signed_num : Re.cls := Re.OneOf [("0", "9"); (".", "."); ("-", "-")]%char.

Definition re_field_size : Re.pattern :=
  lit "Field size: " ++ [Re.GOpen; Re.Plus num; Re.GClose]
  ++ lit " x " ++ [Re.GOpen; Re.Plus num; Re.GClose].

Definition re_field_center : Re.pattern :=
  lit "Field center: (RA,Dec) = (" ++ [Re.GOpen; Re.Plus signed_num; Re.GClose]
  ++ lit ", " ++ [Re.GOpen; Re.Plus signed_num; Re.GClose]
  ++ lit ") deg" ++ [Re.Any Re.Dot].

Definition re_pixel_scale : Re.pattern :=
  lit "pixel scale " ++ [Re.GOpen; Re.Plus num; Re.GClose] ++ lit " arcsec/pix".

Definition re_constellation : Re.pattern :=
  [Re.Any (Re.OneOf [("T", "T"); ("t", "t")]%char)]
  ++ lit "he constellation " ++ [Re.GOpen; Re.Plus Re.Dot; Re.GClose].

Definition re_star : Re.pattern :=
  lit "The star " ++ [Re.GOpen; Re.Plus Re.Dot; Re.GClose].

Definition re_ic : Re.pattern :=
  [Re.GOpen] ++ lit "IC " ++ [Re.Plus Re.Digit; Re.Star Re.Dot; Re.GClose].

Definition re_ngc : Re.pattern :=
  [Re.GOpen] ++ lit "NGC " ++ [Re.Plus Re.Digit; Re.Star Re.Dot; Re.GClose].

Definition re_index : Re.pattern :=
  lit "Field " ++ [Re.Plus Re.Digit] ++ lit ": solved with index index-"
  ++ [Re.GOpen; Re.Plus (Re.OneOf [("a", "z"); ("0", "9"); ("-", "-")]%char); Re.GClose]
  ++ [Re.Any Re.Dot; Re.Plus Re.NotSpace] ++ lit "endian"
  ++ [Re.Any Re.Dot] ++ lit "fits" ++ [Re.Any Re.Dot].

Definition re_sources : Re.pattern :=
  lit "simplexy: found " ++ [Re.GOpen; Re.Plus Re.Digit; Re.GClose] ++ lit " sources".

(** [re.search(p, b).groups()]: an [AttributeError] when nothing matches,
    since [None] has no [groups]. *)
Definition search_groups (p : Re.pattern) (b : string) : result (list string) :=
  match Re.search p b with
  | Some m => Ok (Re.groups b m)
  | None => Raise AttributeError
  end.

(** [re.search(p, b).group(1)]. *)
Definition search_group1 (p : Re.pattern) (b : string) : result string :=
  match Re.search p b with
  | Some m => Ok (Re.group1 b m)
  | None => Raise AttributeError
  end.

Definition str_list (l : list string) : pyval := VList (map VStr l).
Definition float_list (l : list float) : pyval := VList (map VFloat l).

(** [parse_buf], lines 50-64. *)
Definition parse_buf (b : string) : result dict :=
  let rv : dict := ∅ in
  let* size := search_groups re_field_size b in
  let* fov := comprehension py_float size in
  let rv := <["fov" := float_list fov]> rv in
  let* tmp := search_groups re_field_center b in
  let* center := comprehension py_float tmp in
  let rv := <["field_center" := VDict (dict_of_pairs (zip ["ra"; "dec"] (map VFloat center)))]> rv in
  let* scale := search_group1 re_pixel_scale b in
  let* arcsec := py_float scale in
  let rv := <["arcsec_pp" := VFloat arcsec]> rv in
  let rv := <["constellations" := str_list (Re.findall re_constellation b)]> rv in
  let rv := <["stars" := str_list (Re.findall re_star b)]> rv in
  let rv := <["ic" := str_list (Re.findall re_ic b)]> rv in
  let rv := <["ngc" := str_list (Re.findall re_ngc b)]> rv in
  let rv :=
    match search_group1 re_index b with
    | Ok i => <["index" := VStr i]> rv
    | Raise _ => rv          (* [except AttributeError: pass] *)
    end in
  Ok rv.

(** The line feed, and the text of the example report of the
    specification. *)
Definition nl : string := String (ascii_of_nat 10) "".

Definition example_report : string :=
  "Field size: 1.5 x 1.2 degrees" ++ nl ++
  "Field center: (RA,Dec) = (10.5, -20.25) deg." ++ nl ++
  "...pixel scale 1.2 arcsec/pix..." ++ nl ++
  "The star Polaris" ++ nl ++
  "the constellation Ursa Minor" ++ nl.

(** ** The file system, the clock and the outside world *)

(** A file system is a tree; a path is the list of the names on the way
    from the root, so [os.path.join(d, f)] for a name [f] is [d ++ [f]]. *)
Inductive node : Type :=
| File (data : string)
| Dir (entries : gmap string node).

Abbreviation path := (list string).

(** The text of a path, as it is passed to the solver. *)
Definition render (p : path) : string :=
  fold_left (fun acc x => (acc ++ "/" ++ x)%string) p "".

Definition pjoin (d : path) (f : string) : path := d ++ [f].

(** A path split in its parent and its last name. *)
Fixpoint split_last (p : path) : option (path * string) :=
  match p with
  | [] => None
  | [x] => Some ([], x)
  | x :: p' =>
      match split_last p' with
      | Some (d, y) => Some (x :: d, y)
      | None => None
      end
  end.

Fixpoint lookup_path (n : node) (p : path) : option node :=
  match p with
  | [] => Some n
  | x :: p' =>
      match n with
      | Dir es =>
          match es !! x with
          | Some c => lookup_path c p'
          | None => None
          end
      | File _ => None
      end
  end.

(** Replaces the entries [es] of the directory at [d] by [f es]; an
    [OSError] when [d] is not a directory, or when [f] raises. *)
Fixpoint modify_dir (d : path) (f : gmap string node -> result (gmap string node))
  (n : node) : result node :=
  match n with
  | File _ => Raise OSError
  | Dir es =>
      match d with
      | [] => let* es' := f es in Ok (Dir es')
      | x :: d' =>
          match es !! x with
          | Some c => let* c' := modify_dir d' f c in Ok (Dir (<[x := c']> es))
          | None => Raise OSError
          end
      end
  end.

(** A value of an image header: a logical, an integer, a real or a
    string. *)
Inductive scalar : Type :=
| SBool (b : bool)
| SInt (z : Z)
| SFloat (f : float)
| SStr (s : string).

(** What lies outside the program. *)
Record env : Type := Env {
  (** the name [mkdtemp] settles on after the prefix, given the names in use *)
  tmp_suffix : list string -> string;
  (** whether this process may remove the entry at a path *)
  can_remove : path -> bool;
  (** the readings of the monotonic clock, in the order they are taken *)
  clock : nat -> float;
  (** [fitsio.read_header]: the header of an image, or the exception it
      raises *)
  read_header : string -> result (gmap string scalar);
  (** [subprocess.run]: the solver's standard output and what the solver
      did to the file system, or the exception of a failed launch *)
  run : list string -> node -> result (string * node);
  (** [open(f).read()] *)
  read_file : string -> result string
}.

Record world : Type := World {
  fs : node;      (* the file system *)
  ticks : nat     (* the number of clock readings taken so far *)
}.

(** A computation that may raise and may change the world; what it did
    before raising stays done. *)
Definition M (A : Type) : Type := world -> result A * world.

Definition ret {A : Type} (a : A) : M A := fun w => (Ok a, w).

Definition raise {A : Type} (e : exn) : M A := fun w => (Raise e, w).

Definition bindM {A B : Type} (c : M A) (k : A -> M B) : M B :=
  fun w =>
    match c w with
    | (Ok a, w') => k a w'
    | (Raise e, w') => (Raise e, w')
    end.

Notation "'let!' x ':=' c 'in' k" := (bindM c (fun x => k))
  (at level 10, x pattern, c at level 100, k at level 200).

Definition lift {A : Type} (r : result A) : M A := fun w => (r, w).

(** An operation on the file system alone: on an exception the file
    system is as before. *)
Definition on_fs (f : node -> result node) : M unit :=
  fun w =>
    match f (fs w) with
    | Ok n => (Ok tt, World n (ticks w))
    | Raise e => (Raise e, w)
    end.

(** [try: c  except (OSError, IOError): pass]. *)
Definition ignoring_oserror (c : M unit) : M unit :=
  fun w =>
    match c w with
    | (Raise OSError, w') => (Ok tt, w')
    | other => other
    end.

(** [time.monotonic()]. *)
Definition monotonic (E : env) : M float :=
  fun w => (Ok (clock E (ticks w)), World (fs w) (S (ticks w))).

(** [os.listdir(d)]. *)
Definition listdir (d : path) : M (list string) :=
  fun w =>
    match lookup_path (fs w) d with
    | Some (Dir es) => (Ok (map fst (map_to_list es)), w)
    | _ => (Raise OSError, w)
    end.

(** [os.unlink(p)]: removes a file, not a directory. *)
Definition unlink (E : env) (p : path) : M unit :=
  match split_last p with
  | None => raise OSError
  | Some (d, x) =>
      on_fs (modify_dir d (fun es =>
        match es !! x with
        | Some (File _) => if can_remove E p then Ok (delete x es) else Raise OSError
        | _ => Raise OSError
        end))
  end.

(** [os.rmdir(p)]: removes an empty directory. *)
Definition rmdir (E : env) (p : path) : M unit :=
  match split_last p with
  | None => raise OSError
  | Some (d, x) =>
      on_fs (modify_dir d (fun es =>
        match es !! x with
        | Some (Dir sub) =>
            if can_remove E p && bool_decide (sub = ∅) then Ok (delete x es)
            else Raise OSError
        | _ => Raise OSError
        end))
  end.

(** The parents of a path, the nearest first, the root last. *)
Definition parents (p : path) : list path :=
  map (fun n => firstn n p) (rev (seq 0 (length p))).

(** [os.removedirs(p)]: removes the directory [p], then each parent in
    turn for as long as that succeeds; only the first removal can raise. *)
Fixpoint prune (E : env) (ps : list path) : M unit :=
  match ps with
  | [] => ret tt
  | q :: ps' =>
      fun w =>
        match rmdir E q w with
        | (Ok _, w') => prune E ps' w'
        | (Raise OSError, w') => (Ok tt, w')
        | (Raise e, w') => (Raise e, w')
        end
  end.

Definition removedirs (E : env) (p : path) : M unit :=
  let! _ := rmdir E p in
  prune E (parents p).

(** [tempfile.mkdtemp(prefix=prefix, dir=dir)]: a new, empty directory. *)
Definition mkdtemp (E : env) (prefix : string) (dir : path) : M path :=
  let! names := listdir dir in
  let name := (prefix ++ tmp_suffix E names)%string in
  let! _ := on_fs (modify_dir dir (fun es =>
              match es !! name with
              | None => Ok (<[name := Dir ∅]> es)
              | Some _ => Raise OSError
              end)) in
  ret (pjoin dir name).

(** [with open(p, "w") as ofd: ofd.write(data)]. *)
Definition write_file (p : path) (data : string) : M unit :=
  match split_last p with
  | None => raise OSError
  | Some (d, x) =>
      on_fs (modify_dir d (fun es =>
        match es !! x with
        | Some (Dir _) => Raise OSError
        | _ => Ok (<[x := File data]> es)
        end))
  end.

(** ** [rm_rf], lines 37-47 *)

(** The loop of lines 39-43. *)
Fixpoint rm_rf_loop (E : env) (d : path) (names : list string) : M unit :=
  match names with
  | [] => ret tt
  | f :: names' =>
      let! _ := ignoring_oserror (unlink E (pjoin d f)) in
      rm_rf_loop E d names'
  end.

Definition rm_rf (E : env) (d : path) : M unit :=
  let! names := listdir d in
  let! _ := rm_rf_loop E d names in
  ignoring_oserror (removedirs E d).

(** ** The command line of the solver, lines 88-98 *)

(** The value of a keyword argument, as far as [solve_image] looks at it:
    whether it is the object [True], and otherwise its [str]. *)
Inductive argval : Type :=
| IsTrue
| Other (str : string).

(** [k.replace("_", "-")]. *)
Fixpoint dashed (k : string) : string :=
  match k with
  | EmptyString => EmptyString
  | String c k' => String (if Ascii.eqb c "_" then "-"%char else c) (dashed k')
  end.

(** The body of the loop of lines 90-96: one option appended to the
    arguments collected so far. *)
Definition add_option (solver_args : list string) (kv : string * argval) : list string :=
  let k := dashed kv.1 in
  let d := if (String.length k =? 1)%nat then "-" else "--" in
  match kv.2 with
  | IsTrue => solver_args ++ [(d ++ k)%string]
  | Other v => solver_args ++ [(d ++ k)%string; v]
  end.

Definition solver_args (wd : string) (kwargs : list (string * argval)) (img : string)
  : list string :=
  fold_left add_option kwargs ["solve-field"; "--dir"; wd; "--temp-dir"; wd] ++ [img].

(** ** Arithmetic on header values *)

Definition to_py (v : scalar) : pyval :=
  match v with
  | SBool b => VBool b
  | SInt z => VInt z
  | SFloat f => VFloat f
  | SStr s => VStr s
  end.

(** A [bool] counts as the [int] 0 or 1 in arithmetic. *)
Definition unbool (v : scalar) : scalar :=
  match v with
  | SBool b => SInt (if b then 1 else 0)
  | _ => v
  end.

(** [s * n] for a string: [n] copies, none when [n <= 0]. *)
Definition repeat_str (s : string) (n : Z) : string :=
  String.concat "" (repeat s (Z.to_nat n)).

(** [a * b]. *)
Definition py_mul (a b : scalar) : result scalar :=
  match unbool a, unbool b with
  | SInt x, SInt y => Ok (SInt (x * y))
  | SInt x, SFloat y => let* fx := of_int x in Ok (SFloat (fx * y))
  | SFloat x, SInt y => let* fy := of_int y in Ok (SFloat (x * fy))
  | SFloat x, SFloat y => Ok (SFloat (x * y))
  | SStr s, SInt n => Ok (SStr (repeat_str s n))
  | SInt n, SStr s => Ok (SStr (repeat_str s n))
  | _, _ => Raise TypeError
  end.

(** [a / d] for a positive [int] literal [d]. *)
Definition py_truediv (a : scalar) (d : positive) : result float :=
  match unbool a with
  | SInt x => int_truediv x d
  | SFloat x => let* fd := of_int (Zpos d) in Ok (x / fd)%float
  | _ => Raise TypeError
  end.

(** [d[k]] on the header. *)
Definition header_item (h : gmap string scalar) (k : string) : result scalar :=
  match h !! k with
  | Some v => Ok v
  | None => Raise KeyError
  end.

(** ** [solve_image], lines 67-147 *)

(** The dictionary built at lines 125-135, its parts evaluated from left
    to right. *)
Definition header_summary (fits_header : gmap string scalar) : result dict :=
  let* dec := header_item fits_header "DEC" in
  let* ra := header_item fits_header "RA" in
  let obj := default (SStr "") (fits_header !! "OBJECT") in
  let* naxis1 := header_item fits_header "NAXIS1" in
  let* secpix1 := header_item fits_header "SECPIX1" in
  let* prod1 := py_mul naxis1 secpix1 in
  let* deg1 := py_truediv prod1 3600 in
  let* naxis2 := header_item fits_header "NAXIS2" in
  let* secpix2 := header_item fits_header "SECPIX2" in
  let* prod2 := py_mul naxis2 secpix2 in
  let* deg2 := py_truediv prod2 3600 in
  Ok {[ "loc" := VDict {[ "dec" := to_py dec; "ra" := to_py ra ]};
        "obj" := to_py obj;
        "fov" := float_list [round deg1 6; round deg2 6] ]}.

(** Lines 117-147: the record built from the image name, the clock
    readings, the header and the text the solver printed. *)
Definition solve_result (img : string) (t1 t2 : float)
  (fits_header : gmap string scalar) (solver_out : string) : result dict :=
  let m := Re.search re_sources solver_out in
  let rv : dict :=
    {[ "file" := VStr img;
       "solve_time" := VFloat (round (t2 - t1)%float 3);
       "solved" := VBool false ]} in
  let* rv :=
    match header_summary fits_header with
    | Ok h => Ok (<["hdr" := VDict h]> rv)
    | Raise KeyError => Ok rv
    | Raise e => Raise e
    end in
  let* rv :=
    match m with
    | Some mo => let* n := py_int (Re.group1 solver_out mo) in Ok (<["sources" := VInt n]> rv)
    | None => Ok rv
    end in
  if contains "Did not solve" solver_out then Ok rv
  else
    let rv := <["solved" := VBool true]> rv in
    let* report := parse_buf solver_out in
    Ok (report ∪ rv).      (* [rv.update(report)]: the keys of [report] win *)

(** Lines 99-102: the header of the image, empty on an [OSError]; any
    other exception of the reading is not caught. *)
Definition fits_header_of (E : env) (img : string) : result (gmap string scalar) :=
  match read_header E img with
  | Ok h => Ok h
  | Raise OSError => Ok ∅
  | Raise e => Raise e
  end.

(** [run(solver_args, capture_output=True, text=True).stdout]. *)
Definition run_solver (E : env) (argv : list string) : M string :=
  fun w =>
    match run E argv (fs w) with
    | Ok (out, n) => (Ok out, World n (ticks w))
    | Raise e => (Raise e, w)
    end.

(** The whole function. The keyword [solver_debug] only prints the text
    of the solver, and the log lines are not part of the result: neither
    is modelled. *)
Definition solve_image (E : env) (img : string) (save_temps solver_debug : bool)
  (kwargs : list (string * argval)) : M dict :=
  let! wd := mkdtemp E "astrometry_" ["tmp"] in
  let args := solver_args (render wd) kwargs img in
  let! fits_header := lift (fits_header_of E img) in
  let! t1 := monotonic E in
  let! solver_out := run_solver E args in
  let! t2 := monotonic E in
  let! _ := (if save_temps then write_file (pjoin wd "solver.txt") solver_out
             else rm_rf E wd) in
  lift (solve_result img t1 t2 fits_header solver_out).

(** ** [main], lines 150-176 *)

(** The arguments of the command line that [main] reads. *)
Record args : Type := Args {
  verbose : nat;
  test_file : bool;
  save_temps : bool;
  files : list string
}.

(** Lines 160-167: the record of one file. *)
Definition process_file (E : env) (a : args) (f : string) : M dict :=
  if test_file a then
    let! text := lift (read_file E f) in
    let! solve_res := lift (parse_buf text) in
    ret (<["solve_time" := VFloat 0]> (<["file" := VStr f]> solve_res))
  else
    solve_image E f (save_temps a) (2 <? verbose a)%nat [("guess_scale", IsTrue)].

(** The loop of lines 159-173, [solver_results] being the list built so
    far. *)
Fixpoint main_loop (E : env) (a : args) (fl : list string) (solver_results : list dict)
  : M (list dict) :=
  match fl with
  | [] => ret solver_results
  | f :: fl' =>
      let! solve_res := process_file E a f in
      let! solved := lift (getitem solve_res "solved") in
      if truthy solved || (1 <? verbose a)%nat
      then main_loop E a fl' (solver_results ++ [solve_res])
      else main_loop E a fl' solver_results
  end.

(** [main] returns the list that line 176 writes to the output. *)
Definition main (E : env) (a : args) : M (list dict) :=
  main_loop E a (files a) [].

(** ** Notions used in the statements *)

(** The keys that [parse_buf] may set. *)
Definition report_keys : list string :=
  ["fov"; "field_center"; "arcsec_pp"; "constellations"; "stars"; "ic"; "ngc"; "index"].

(** The three mandatory fields, each as [parse_buf] extracts it. *)
Definition field_size (b : string) : result (list float) :=
  let* size := search_groups re_field_size b in comprehension py_float size.

Definition field_center (b : string) : result (list float) :=
  let* tmp := search_groups re_field_center b in comprehension py_float tmp.

Definition pixel_scale (b : string) : result float :=
  let* scale := search_group1 re_pixel_scale b in py_float scale.

(** A mandatory field is missing: its pattern matches nowhere. *)
Definition missing_mandatory (b : string) : Prop :=
  Re.search re_field_size b = None \/
  Re.search re_field_center b = None \/
  Re.search re_pixel_scale b = None.

(** The header can be summarised or lacks a key: the arithmetic of lines
    132-133 raises nothing on it. *)
Definition header_usable (h : gmap string scalar) : Prop :=
  forall e, header_summary h = Raise e -> e = KeyError.

(** A report in which a star and a constellation come back. *)
Definition repeated_report : string :=
  "The star Vega" ++ nl ++
  "the constellation Lyra" ++ nl ++
  "The star Deneb" ++ nl ++
  "The constellation Cygnus" ++ nl ++
  "The star Vega" ++ nl ++
  "the constellation Lyra" ++ nl.

(** The header of the example of the specification: 4000 by 3000 pixels of
    one arc second. *)
Definition example_header : gmap string scalar :=
  {[ "RA" := SFloat 10.5; "DEC" := SFloat (-20.25);
     "NAXIS1" := SInt 4000; "SECPIX1" := SFloat 1;
     "NAXIS2" := SInt 3000; "SECPIX2" := SFloat 1 ]}.

(** A report that has the three mandatory fields and the failure marker. *)
Definition failed_report : string := example_report ++ "Did not solve (or no WCS file was written)." ++ nl.

(** The command line as the specification words it: the name of an option
    with every underscore turned into a dash, one dash before a name of
    one character and two before a longer one; a flag alone for [True],
    the flag and the value otherwise; the image last. *)
Definition flag_of (name : string) : string :=
  let dashes := if (String.length name =? 1)%nat then "-" else "--" in
  (dashes ++ string_of_list_ascii
               (map (fun c => if Ascii.eqb c "_" then "-"%char else c)
                    (list_ascii_of_string name)))%string.

Definition tokens_of (kv : string * argval) : list string :=
  match kv.2 with
  | IsTrue => [flag_of kv.1]
  | Other v => [flag_of kv.1; v]
  end.

Definition spec_command_line (wd : string) (kwargs : list (string * argval)) (img : string)
  : list string :=
  ["solve-field"; "--dir"; wd; "--temp-dir"; wd] ++ flat_map tokens_of kwargs ++ [img].

(** The example header without its [OBJECT], which it never had, and with
    one: both are summarised. *)
Definition named_header : gmap string scalar :=
  <["OBJECT" := SStr "M31"]> example_header.

Definition summary_of_example (obj : string) : dict :=
  {[ "loc" := VDict {[ "dec" := VFloat (-20.25); "ra" := VFloat 10.5 ]};
     "obj" := VStr obj;
     "fov" := VList [VFloat 1.111111; VFloat 0.833333] ]}.

(** The solver prints [out], whatever its arguments and the state of the
    file system. *)
Definition solver_prints (E : env) (out : string) : Prop :=
  forall argv n, exists n', run E argv n = Ok (out, n').

(** The solver cannot be started on the image [f], the last argument of
    its command line. *)
Definition launch_fails (E : env) (f : string) : Prop :=
  forall argv n, last argv = Some f -> exists e, run E argv n = Raise e.

(** The records of the files [fl], processed one after the other from the
    world [w], each from the world the one before left. *)
Inductive runs (E : env) (a : args) : list string -> world -> list dict -> world -> Prop :=
| runs_nil (w : world) : runs E a [] w [] w
| runs_cons (f : string) (fl : list string) (w w1 w2 : world) (r : dict) (rs : list dict) :
    process_file E a f w = (Ok r, w1) ->
    runs E a fl w1 rs w2 ->
    runs E a (f :: fl) w (r :: rs) w2.

(** The record says [solved: true]. *)
Definition solved_true (r : dict) : bool :=
  match r !! "solved" with
  | Some (VBool true) => true
  | _ => false
  end.

(** The inclusion test of line 172. *)
Definition kept (a : args) (r : dict) : bool :=
  solved_true r || (1 <? verbose a)%nat.

(** ** The worlds of the examples *)

(** A file system with an empty [/tmp]. *)
Definition demo_world : world := World (Dir {[ "tmp" := Dir ∅ ]}) 0.

(** An outside world: on the image [f] the solver prints [output f] and
    leaves the file system as [litter] makes it, unless [f] is among the
    [broken] images, on which it cannot be started; the entries at the
    [locked] paths cannot be removed; every image has the example header;
    the clock reads 10 and 12.5 seconds in turn. *)
Definition demo_env (output : string -> string) (broken : list string)
    (litter : node -> node) (locked : list path) : env :=
  {| tmp_suffix := fun _ => "q7k2";
     can_remove := fun p => negb (bool_decide (p ∈ locked));
     clock := fun n => if Nat.even n then 10%float else 12.5%float;
     read_header := fun _ => Ok example_header;
     run := fun argv n =>
              let f := default "" (last argv) in
              if existsb (String.eqb f) broken then Raise OSError
              else Ok (output f, litter n);
     read_file := fun f => Ok (output f) |}.

(** A text of the solver with neither the marker nor a mandatory field. *)
Definition blank_report : string := "simplexy: found 12 sources" ++ nl.

(** The solver prints [blank_report]. *)
Definition blank_env : env := demo_env (fun _ => blank_report) [] id [["tmp"]].

(** The solver solves every image but [b.fits], on which it cannot be
    started. *)
Definition broken_env : env := demo_env (fun _ => example_report) ["b.fits"] id [["tmp"]].

(** The solver solves [a.fits] and [c.fits] and fails on the others. *)
Definition mixed_env : env :=
  demo_env (fun f => if String.eqb f "a.fits" || String.eqb f "c.fits"
                     then example_report else failed_report)
           [] id [["tmp"]].

Definition batch (v : nat) (transcripts : bool) : args :=
  {| verbose := v; test_file := transcripts; save_temps := false;
     files := ["a.fits"; "b.fits"; "c.fits"] |}.

(** ** Notions about the file system *)

(** The tree [n] with [es'] as the entries of the directory at [d]. *)
Fixpoint replace_dir (d : path) (es' : gmap string node) (n : node) : node :=
  match n with
  | File _ => n
  | Dir es =>
      match d with
      | [] => Dir es'
      | x :: d' =>
          match es !! x with
          | Some c => Dir (<[x := replace_dir d' es' c]> es)
          | None => n
          end
      end
  end.

(** The entry [x] of the directory [d] can be unlinked: it is a file, and
    the process may remove it. *)
Definition removable (E : env) (d : path) (x : string) (nd : node) : bool :=
  match nd with
  | File _ => can_remove E (pjoin d x)
  | Dir _ => false
  end.

(** The entries of a directory after an attempt to unlink [x]. *)
Definition unlink_entry (E : env) (d : path) (es : gmap string node) (x : string)
  : gmap string node :=
  match es !! x with
  | Some nd => if removable E d x nd then delete x es else es
  | None => es
  end.

(** What is left of the entries [es] of [d] after an attempt on each. *)
Definition leftover (E : env) (d : path) (es : gmap string node) : gmap string node :=
  fold_left (unlink_entry E d) (map fst (map_to_list es)) es.

(** The solver leaves a catalogue in its working directory, which the
    process may not unlink. *)
Definition demo_wd : path := ["tmp"; "astrometry_q7k2"].

Definition littering_env : env :=
  demo_env (fun _ => failed_report) []
           (replace_dir demo_wd {[ "field.axy" := File "sources" ]})
           [["tmp"]; pjoin demo_wd "field.axy"].



Definition demo_fs_solved : node :=
  Dir {[ "tmp" := Dir {[ "astrometry_q7k2" := Dir {[ "field.axy" := File "sources" ]} ]} ]}.

(** The example world after the solver has run, two clock readings
    taken. *)
Definition demo_world_solved : world := World demo_fs_solved 2.

(** The number of groups of a pattern. *)
Definition closes (p : Re.pattern) : nat :=
  length (List.filter (fun i => match i with Re.GClose => true | _ => false end) p).

(** A report whose field size is not a number. *)
Definition garbled_report : string :=
  "Field size: 1.2.3 x 4.5 degrees" ++ nl ++
  "Field center: (RA,Dec) = (10.5, -20.25) deg." ++ nl ++
  "pixel scale 1.2 arcsec/pix." ++ nl.

(** The text of a failed solve that counted its sources. *)
Definition unsolved_report : string :=
  blank_report ++ "Did not solve (or no WCS file was written)." ++ nl.


(** The example header, its pixel scale written as text. *)
Definition text_header : gmap string scalar :=
  <["SECPIX1" := SStr "1.0"]> example_header.

(** An outside world in which no header can be read; the solver fails on
    every image and leaves nothing behind. *)
Definition headerless_env : env :=
  let E := demo_env (fun _ => failed_report) [] id [["tmp"]] in
  {| tmp_suffix := tmp_suffix E;
     can_remove := can_remove E;
     clock := clock E;
     read_header := fun _ => Raise OSError;
     run := run E;
     read_file := read_file E |}.

(** An outside world whose solver removes the working directories with
    all of [/tmp]. *)
Definition vanishing_env : env :=
  demo_env (fun _ => failed_report) [] (replace_dir [] ∅) [].

(** A file system without [/tmp]. *)
Definition bare_world : world := World (Dir ∅) 0.

(** The text has a count of sources that [int] refuses: more digits than
    the limit allows. *)
Definition count_too_long (out : string) : bool :=
  match Re.search re_sources out with
  | Some mo => (int_max_str_digits <? String.length (Re.group1 out mo))%nat
  | None => false
  end.

(** A failed solve that reports a count of 4301 digits. *)
Definition long_count_report : string :=
  "simplexy: found " ++ string_of_list_ascii (repeat "1"%char 4301) ++ " sources" ++ nl ++
  "Did not solve (or no WCS file was written)." ++ nl.

(** An outside world in which the reading of a header raises something
    else than an [OSError]. *)
Definition corrupt_env : env :=
  let E := demo_env (fun _ => failed_report) [] id [["tmp"]] in
  {| tmp_suffix := tmp_suffix E;
     can_remove := can_remove E;
     clock := clock E;
     read_header := fun _ => Raise ValueError;
     run := run E;
     read_file := read_file E |}.

(** * Properties *)

(** ** The patterns are the ones of the source *)

Lemma patterns_compile :
  Re.compile "Field size: ([0-9.]+) x ([0-9.]+)" = Some re_field_size /\
  Re.compile "Field center: \(RA,Dec\) = \(([0-9.-]+), ([0-9.-]+)\) deg." = Some re_field_center /\
  Re.compile "pixel scale ([0-9.]+) arcsec/pix" = Some re_pixel_scale /\
  Re.compile "[Tt]he constellation (.+)" = Some re_constellation /\
  Re.compile "The star (.+)" = Some re_star /\
  Re.compile "(IC \d+.*)" = Some re_ic /\
  Re.compile "(NGC \d+.*)" = Some re_ngc /\
  Re.compile "Field \d+: solved with index index-([a-z0-9-]+).\S+endian.fits." = Some re_index /\
  Re.compile "simplexy: found (\d+) sources" = Some re_sources.
Proof. repeat split; vm_compute; reflexivity. Qed.

(** ** Substrings *)

Lemma prefix_app (a b : string) :
  String.prefix a b = true <-> exists post, b = (a ++ post)%string.
Proof.
  revert b. induction a as [|c a IH]; intros b.
  - destruct b; (split; [intros _; eexists; reflexivity | reflexivity]).
  - destruct b as [|c' b]; cbn.
    + split; [discriminate | intros (post & [=])].
    + destruct (Ascii.ascii_dec c c') as [<-|Hne].
      * rewrite IH. split; intros (post & H); exists post; [by rewrite H | by injection H].
      * split; [discriminate | intros (post & [= H _]); by destruct Hne].
Qed.

(** [contains] is the substring test. *)
Lemma contains_spec (needle hay : string) :
  contains needle hay = true <-> exists pre post, hay = (pre ++ needle ++ post)%string.
Proof.
  induction hay as [|c hay IH]; cbn [contains].
  - destruct (String.prefix needle "") eqn:Hp.
    + apply prefix_app in Hp as (post & Hp). split; [|done].
      intros _. by exists ""%string, post.
    + split; [done|]. intros (pre & post & H).
      destruct pre; [|discriminate]. cbn in H.
      assert (String.prefix needle "" = true) by (apply prefix_app; eauto). congruence.
  - destruct (String.prefix needle (String c hay)) eqn:Hp.
    + apply prefix_app in Hp as (post & Hp). split; [|done].
      intros _. by exists ""%string, post.
    + rewrite IH. split.
      * intros (pre & post & ->). by exists (String c pre), post.
      * intros (pre & post & H). destruct pre as [|c' pre].
        -- cbn in H. assert (String.prefix needle (String c hay) = true)
             by (apply prefix_app; eauto). congruence.
        -- injection H as _ ->. eauto.
Qed.

(** ** Matching: what a successful match says about the text *)

Section Matching.

Implicit Types (s : list ascii) (p : Re.pattern).

(** A greedy repetition took some characters of its class and then the
    rest of the pattern matched. *)
Lemma greedy_inv k rest s pos r :
  Re.greedy k rest s pos = Some r ->
  exists n : nat, (n <= length s)%nat /\
    forallb (Re.in_cls k) (firstn n s) = true /\
    rest (skipn n s) (pos + n)%nat = Some r.
Proof.
  revert pos. induction s as [|c s IH]; intros pos H; simpl in H.
  - exists 0%nat. simpl. rewrite Nat.add_0_r. auto.
  - destruct (Re.in_cls k c) eqn:Hc.
    + destruct (Re.greedy k rest s (S pos)) eqn:Hg.
      * injection H as <-. destruct (IH _ Hg) as (n & Hn & Hall & Hrest).
        exists (S n). simpl. rewrite Hc, Hall.
        replace (pos + S n)%nat with (S pos + n)%nat by lia.
        split; [lia | auto].
      * exists 0%nat. simpl. rewrite Nat.add_0_r. split; [lia | auto].
    + exists 0%nat. simpl. rewrite Nat.add_0_r. split; [lia | auto].
Qed.

(** A literal piece at the head of a pattern is at the head of the
    text. *)
Lemma match_here_lit l p opened spans s pos r :
  Re.match_here (lit l ++ p) opened spans s pos = Some r ->
  exists s', s = list_ascii_of_string l ++ s' /\
    Re.match_here p opened spans s' (pos + String.length l)%nat = Some r.
Proof.
  revert s pos. induction l as [|c l IH]; intros s pos H; simpl in *.
  - exists s. rewrite Nat.add_0_r. auto.
  - destruct s as [|c' s]; [discriminate|].
    destruct (Ascii.eqb c c') eqn:Hc; [|discriminate].
    apply Ascii.eqb_eq in Hc as <-.
    destruct (IH _ _ H) as (s' & -> & Hm).
    exists s'. split; [reflexivity|].
    replace (pos + S (String.length l))%nat with (S pos + String.length l)%nat by lia.
    exact Hm.
Qed.

(** The leftmost match starts somewhere in the text. *)
Lemma search_from_inv p s pos m :
  Re.search_from p s pos = Some m ->
  exists k : nat, (k <= length s)%nat /\ Re.m_start m = (pos + k)%nat /\
    Re.match_here p [] [] (skipn k s) (pos + k)%nat = Some (Re.m_end m, Re.m_spans m).
Proof.
  revert pos. induction s as [|c s IH]; intros pos H; simpl in H.
  - destruct (Re.match_here p [] [] [] pos) as [[e sp]|] eqn:Hm; [|discriminate].
    injection H as <-. exists 0%nat. simpl. rewrite Nat.add_0_r. auto.
  - destruct (Re.match_here p [] [] (c :: s) pos) as [[e sp]|] eqn:Hm.
    + injection H as <-. exists 0%nat. simpl. rewrite Nat.add_0_r.
      split; [lia | auto].
    + destruct (IH _ H) as (k & Hk & Hs & Hmk).
      exists (S k). simpl.
      replace (pos + S k)%nat with (S pos + k)%nat by lia.
      split; [lia | auto].
Qed.

(** A piece of a string, seen as a list of characters. *)
Lemma substring_chars (text : string) (a len : nat) :
  list_ascii_of_string (substring a len text)
  = firstn len (skipn a (list_ascii_of_string text)).
Proof.
  revert a len. induction text as [|c text IH]; intros a len; simpl.
  - destruct a, len; reflexivity.
  - destruct a as [|a]; simpl.
    + destruct len as [|len]; simpl; [reflexivity|]. f_equal. apply (IH 0%nat).
    + apply IH.
Qed.

(** A run of digits, read in full. *)
Lemma read_digits_all s acc n :
  forallb is_digit s = true ->
  exists v, read_digits s acc n = (v, (n + length s)%nat, []).
Proof.
  revert acc n. induction s as [|c s IH]; intros acc n H; simpl in *.
  - exists acc. rewrite Nat.add_0_r. reflexivity.
  - apply andb_true_iff in H as [Hc Hs]. rewrite Hc.
    destruct (IH (10 * acc + digit_value c) (S n) Hs) as (v & ->).
    exists v. replace (n + S (length s))%nat with (S n + length s)%nat by lia.
    reflexivity.
Qed.

(** [int] on a numeral: the limit on its digits decides. *)
Lemma py_int_digits (g : string) :
  list_ascii_of_string g <> [] ->
  forallb is_digit (list_ascii_of_string g) = true ->
  if (int_max_str_digits <? String.length g)%nat then py_int g = Raise ValueError
  else exists v, py_int g = Ok v.
Proof.
  intros Hne Hd. unfold py_int.
  destruct (read_digits_all _ 0 0%nat Hd) as (v & ->).
  assert (Hl : length (list_ascii_of_string g) = String.length g).
  { clear. induction g as [|a g IH]; cbn; [reflexivity | by rewrite IH]. }
  rewrite Nat.add_0_l, Hl.
  assert (H0 : (String.length g =? 0)%nat = false).
  { apply Nat.eqb_neq. rewrite <- Hl. destruct (list_ascii_of_string g); [done | cbn; lia]. }
  rewrite H0. destruct (int_max_str_digits <? String.length g)%nat; eauto.
Qed.

End Matching.

Arguments lit : simpl never.

(** The group of ["simplexy: found (\d+) sources"] is a numeral, so the
    [int] of line 140 raises on the limit of digits only. *)
Lemma sources_group_is_number (out : string) (mo : Re.mobj) :
  Re.search re_sources out = Some mo ->
  if (int_max_str_digits <? String.length (Re.group1 out mo))%nat
  then py_int (Re.group1 out mo) = Raise ValueError
  else exists n, py_int (Re.group1 out mo) = Ok n.
Proof.
  unfold Re.search. intros H.
  apply search_from_inv in H as (k & _ & _ & Hm).
  change (0 + k)%nat with k in Hm. unfold re_sources in Hm.
  apply match_here_lit in Hm as (s1 & Hs1 & Hm).
  cbn [app Re.match_here] in Hm.
  destruct s1 as [|c s2]; [discriminate|].
  cbn [Re.in_cls] in Hm.
  destruct (is_digit c) eqn:Hc; [|discriminate].
  apply greedy_inv in Hm as (n & _ & Hall & Hm).
  cbn [Re.match_here] in Hm.
  rewrite <- (app_nil_r (lit " sources")) in Hm.
  apply match_here_lit in Hm as (s3 & _ & Hm).
  cbn [Re.match_here rev app] in Hm.
  injection Hm as _ Hsp.
  assert (Hg : list_ascii_of_string (Re.group1 out mo) = c :: firstn n s2).
  { unfold Re.group1, Re.groups. rewrite <- Hsp. cbn [map fst snd].
    rewrite substring_chars.
    change (String.length "simplexy: found ") with 16%nat.
    replace (k + 16)%nat with (16 + k)%nat by lia.
    rewrite <- skipn_skipn, Hs1.
    replace (S (16 + k + n) - (16 + k))%nat with (S n) by lia.
    reflexivity. }
  apply py_int_digits; rewrite Hg.
  - discriminate.
  - cbn [forallb]. change (forallb is_digit (firstn n s2) = true) in Hall.
    rewrite Hc, Hall. reflexivity.
Qed.

(** ** Results *)

Lemma bind_ok {A B : Type} (c : result A) (k : A -> result B) (b : B) :
  bind c k = Ok b -> exists a, c = Ok a /\ k a = Ok b.
Proof. destruct c as [a|e]; simpl; [eauto | discriminate]. Qed.

(** ** The report parser *)

(** What [parse_buf] returns, when it returns: the three mandatory fields
    were extracted, and the record has them, the four lists of matches,
    and the index when there is one. *)
Lemma parse_buf_ok (b : string) (rep : dict) :
  parse_buf b = Ok rep <->
  exists fov center arcsec,
    field_size b = Ok fov /\ field_center b = Ok center /\ pixel_scale b = Ok arcsec /\
    rep =
      let rv : dict :=
        <["ngc" := str_list (Re.findall re_ngc b)]>
          (<["ic" := str_list (Re.findall re_ic b)]>
             (<["stars" := str_list (Re.findall re_star b)]>
                (<["constellations" := str_list (Re.findall re_constellation b)]>
                   (<["arcsec_pp" := VFloat arcsec]>
                      (<["field_center" := VDict (dict_of_pairs (zip ["ra"; "dec"] (map VFloat center)))]>
                         (<["fov" := float_list fov]> ∅)))))) in
      match search_group1 re_index b with
      | Ok i => <["index" := VStr i]> rv
      | Raise _ => rv
      end.
Proof.
  unfold parse_buf, field_size, field_center, pixel_scale. split.
  - intros H.
    destruct (search_groups re_field_size b) as [size|]; [|discriminate]. cbn [bind] in *.
    destruct (comprehension py_float size) as [fov|]; [|discriminate]. cbn [bind] in *.
    destruct (search_groups re_field_center b) as [tmp|]; [|discriminate]. cbn [bind] in *.
    destruct (comprehension py_float tmp) as [center|]; [|discriminate]. cbn [bind] in *.
    destruct (search_group1 re_pixel_scale b) as [scale|]; [|discriminate]. cbn [bind] in *.
    destruct (py_float scale) as [arcsec|]; [|discriminate]. cbn [bind] in *.
    injection H as <-. exists fov, center, arcsec. auto.
  - intros (fov & center & arcsec & H1 & H2 & H3 & ->).
    destruct (search_groups re_field_size b) as [size|]; [|discriminate]. cbn [bind] in *.
    rewrite H1. cbn [bind].
    destruct (search_groups re_field_center b) as [tmp|]; [|discriminate]. cbn [bind] in *.
    rewrite H2. cbn [bind].
    destruct (search_group1 re_pixel_scale b) as [scale|]; [|discriminate]. cbn [bind] in *.
    rewrite H3. reflexivity.
Qed.

(** [parse_buf] sets no key outside [report_keys]. *)
Lemma parse_buf_keys (b : string) (rep : dict) (k : string) :
  parse_buf b = Ok rep -> k ∉ report_keys -> rep !! k = None.
Proof.
  intros H Hk. apply parse_buf_ok in H as (fov & center & arcsec & _ & _ & _ & ->).
  unfold report_keys in Hk. rewrite !not_elem_of_cons in Hk.
  destruct Hk as (? & ? & ? & ? & ? & ? & ? & ? & _).
  cbv zeta. destruct (search_group1 re_index b);
    rewrite ?lookup_insert_ne by congruence; apply lookup_empty.
Qed.

Lemma py_float_raises (g : string) (e : exn) : py_float g = Raise e -> e = ValueError.
Proof.
  unfold py_float. intros H.
  repeat (match type of H with
          | context [match ?x with _ => _ end] => destruct x
          end; try discriminate; try (injection H as <-; reflexivity)).
Qed.

Lemma comprehension_raises {A B : Type} (f : A -> result B) (l : list A) (e : exn) :
  comprehension f l = Raise e -> exists x, x ∈ l /\ f x = Raise e.
Proof.
  induction l as [|x l IH]; simpl; [discriminate|].
  destruct (f x) as [y|e'] eqn:Hx; simpl.
  - destruct (comprehension f l); simpl; [discriminate|].
    intros [= <-]. destruct IH as (x' & ? & ?); [reflexivity|].
    exists x'. split; [by apply list_elem_of_further | done].
  - intros [= <-]. exists x. split; [apply list_elem_of_here | done].
Qed.

(** A missing mandatory field makes [parse_buf] raise. *)
Lemma parse_buf_missing (b : string) :
  missing_mandatory b ->
  parse_buf b = Raise AttributeError \/ parse_buf b = Raise ValueError.
Proof.
  unfold missing_mandatory, parse_buf, search_groups, search_group1.
  intros H.
  destruct (Re.search re_field_size b) as [m1|]; [|left; reflexivity]. cbn [bind].
  destruct (comprehension py_float (Re.groups b m1)) as [fov|e1] eqn:H1; cbn [bind].
  2:{ right. apply comprehension_raises in H1 as (g & _ & Hg).
      by rewrite (py_float_raises _ _ Hg). }
  destruct (Re.search re_field_center b) as [m2|]; [|left; reflexivity]. cbn [bind].
  destruct (comprehension py_float (Re.groups b m2)) as [center|e2] eqn:H2; cbn [bind].
  2:{ right. apply comprehension_raises in H2 as (g & _ & Hg).
      by rewrite (py_float_raises _ _ Hg). }
  destruct (Re.search re_pixel_scale b) as [m3|]; [|left; reflexivity].
  destruct H as [H | [H | H]]; discriminate.
Qed.

(** ** The reconciliation, lines 117-147 *)

(** The keys that [solve_result] sets itself are not keys of the report. *)
Lemma parse_buf_not_own (b : string) (rep : dict) (k : string) :
  parse_buf b = Ok rep ->
  k ∈ ["file"; "solve_time"; "solved"; "hdr"; "sources"] ->
  rep !! k = None.
Proof.
  intros H Hk. apply (parse_buf_keys _ _ _ H). unfold report_keys.
  rewrite !elem_of_cons, elem_of_nil in Hk. rewrite !not_elem_of_cons.
  destruct Hk as [->|[->|[->|[->|[->|[]]]]]]; repeat split; try discriminate;
    apply not_elem_of_nil.
Qed.

(** What the record holds when [solve_result] returns one. *)
Lemma solve_result_inv img t1 t2 h out rv :
  solve_result img t1 t2 h out = Ok rv ->
  rv !! "file" = Some (VStr img) /\
  rv !! "solve_time" = Some (VFloat (round (t2 - t1)%float 3)) /\
  rv !! "solved" = Some (VBool (negb (contains "Did not solve" out))) /\
  rv !! "hdr" = match header_summary h with Ok d => Some (VDict d) | Raise _ => None end /\
  header_usable h /\
  (contains "Did not solve" out = false ->
   exists rep, parse_buf out = Ok rep /\ forall k v, rep !! k = Some v -> rv !! k = Some v).
Proof.
  unfold solve_result, header_usable. intros H.
  apply bind_ok in H as (rv1 & H1 & H). apply bind_ok in H as (rv2 & H2 & H).
  assert (Hkeys : forall k, k ∈ ["file"; "solve_time"; "solved"; "hdr"] ->
                            rv2 !! k = rv1 !! k).
  { intros k Hk. destruct (Re.search re_sources out) as [mo|].
    - apply bind_ok in H2 as (n & _ & [= <-]).
      rewrite !elem_of_cons, elem_of_nil in Hk. rewrite lookup_insert_ne; [done|].
      destruct Hk as [->|[->|[->|[->|[]]]]]; discriminate.
    - by injection H2 as <-. }
  assert (Hhdr : (rv1 !! "hdr" = match header_summary h with
                                 | Ok d => Some (VDict d) | Raise _ => None end) /\
                 rv1 !! "file" = Some (VStr img) /\
                 rv1 !! "solve_time" = Some (VFloat (round (t2 - t1)%float 3)) /\
                 rv1 !! "solved" = Some (VBool false) /\
                 (forall e, header_summary h = Raise e -> e = KeyError)).
  { destruct (header_summary h) as [d|e].
    - injection H1 as <-. repeat split; try done.
    - destruct e; try discriminate. injection H1 as <-. repeat split; try done.
      by intros e [= <-]. }
  destruct Hhdr as (Hh & Hf & Ht & Hs & Hu).
  destruct (contains "Did not solve" out).
  - injection H as <-.
    rewrite (Hkeys "file"), (Hkeys "solve_time"), (Hkeys "solved"), (Hkeys "hdr")
      by (rewrite !elem_of_cons; auto).
    split; [done|]. split; [done|]. split; [done|]. split; [done|]. split; [exact Hu|].
    discriminate.
  - apply bind_ok in H as (rep & Hrep & [= <-]).
    assert (Hout : forall k, k ∈ ["file"; "solve_time"; "hdr"] ->
               (rep ∪ <["solved" := VBool true]> rv2) !! k = rv1 !! k).
    { intros k Hk. rewrite !elem_of_cons, elem_of_nil in Hk.
      rewrite lookup_union_r.
      - rewrite lookup_insert_ne by (destruct Hk as [->|[->|[->|[]]]]; discriminate).
        apply Hkeys. rewrite !elem_of_cons. tauto.
      - apply (parse_buf_not_own _ _ _ Hrep). rewrite !elem_of_cons. tauto. }
    rewrite (Hout "file"), (Hout "solve_time"), (Hout "hdr")
      by (rewrite !elem_of_cons; auto).
    split; [done|]. split; [done|]. split; [|split; [done|split; [exact Hu|]]].
    + rewrite lookup_union_r.
      * by rewrite lookup_insert_eq.
      * apply (parse_buf_not_own _ _ _ Hrep). rewrite !elem_of_cons. tauto.
    + intros _. exists rep. split; [done|]. intros k v Hv.
      by apply lookup_union_Some_l.
Qed.

(** The [int] of line 140 on the text of the solver. *)
Lemma sources_conversion (out : string) :
  match Re.search re_sources out with
  | Some mo =>
      if count_too_long out then py_int (Re.group1 out mo) = Raise ValueError
      else exists n, py_int (Re.group1 out mo) = Ok n
  | None => count_too_long out = false
  end.
Proof.
  unfold count_too_long.
  destruct (Re.search re_sources out) as [mo|] eqn:Hm; [|reflexivity].
  apply (sources_group_is_number _ _ Hm).
Qed.

(** When [solve_result] returns: the header is usable, the count of the
    sources can be converted, and the text has the marker or can be
    parsed. *)
Lemma solve_result_total img t1 t2 h out :
  header_usable h ->
  count_too_long out = false ->
  contains "Did not solve" out = true \/ is_ok (parse_buf out) = true ->
  exists rv, solve_result img t1 t2 h out = Ok rv.
Proof.
  unfold solve_result, header_usable. intros Hu Hn Hc.
  pose proof (sources_conversion out) as Hs. rewrite Hn in Hs.
  destruct (header_summary h) as [d|e] eqn:Hh.
  - cbn [bind]. destruct (Re.search re_sources out) as [mo|] eqn:Hm.
    + destruct Hs as (n & ->). cbn [bind].
      destruct (contains "Did not solve" out); [eauto|].
      destruct Hc as [Hc|Hc]; [discriminate|].
      destruct (parse_buf out); [cbn [bind]; eauto | discriminate].
    + cbn [bind]. destruct (contains "Did not solve" out); [eauto|].
      destruct Hc as [Hc|Hc]; [discriminate|].
      destruct (parse_buf out); [cbn [bind]; eauto | discriminate].
  - rewrite (Hu e eq_refl). cbn [bind].
    destruct (Re.search re_sources out) as [mo|] eqn:Hm.
    + destruct Hs as (n & ->). cbn [bind].
      destruct (contains "Did not solve" out); [eauto|].
      destruct Hc as [Hc|Hc]; [discriminate|].
      destruct (parse_buf out); [cbn [bind]; eauto | discriminate].
    + cbn [bind]. destruct (contains "Did not solve" out); [eauto|].
      destruct Hc as [Hc|Hc]; [discriminate|].
      destruct (parse_buf out); [cbn [bind]; eauto | discriminate].
Qed.

(** When the text has no marker and cannot be parsed, [solve_result]
    raises. *)
Lemma solve_result_unparsed img t1 t2 h out e :
  contains "Did not solve" out = false ->
  parse_buf out = Raise e ->
  exists e', solve_result img t1 t2 h out = Raise e'.
Proof.
  unfold solve_result. intros Hc Hp. rewrite Hc, Hp.
  destruct (header_summary h) as [d|[]]; cbn [bind]; eauto;
    destruct (Re.search re_sources out) as [mo|]; cbn [bind]; eauto;
    destruct (py_int (Re.group1 out mo)); cbn [bind]; eauto.
Qed.

(** ** The example report *)

(** C7. The report parser, on the example text of the specification,
    returns fov [1.5, 1.2], field center ra 10.5 and dec -20.25, 1.2 arc
    seconds per pixel, the star Polaris and the constellation Ursa Minor
    (no IC or NGC entry, no index); and the stars and constellations of a
    report come in their order of appearance, a name that comes back being
    listed again. *)
Theorem C7_example_report :
  parse_buf example_report =
    Ok {[ "fov" := VList [VFloat 1.5; VFloat 1.2];
          "field_center" := VDict {[ "ra" := VFloat 10.5; "dec" := VFloat (-20.25) ]};
          "arcsec_pp" := VFloat 1.2;
          "stars" := VList [VStr "Polaris"];
          "constellations" := VList [VStr "Ursa Minor"];
          "ic" := VList [];
          "ngc" := VList [] ]} /\
  Re.findall re_star repeated_report = ["Vega"; "Deneb"; "Vega"] /\
  Re.findall re_constellation repeated_report = ["Lyra"; "Cygnus"; "Lyra"].
Proof. repeat split; vm_compute; reflexivity. Qed.

(** ** The command line *)

Lemma fold_add_option (kwargs : list (string * argval)) (acc : list string) :
  (forall kv, add_option [] kv = tokens_of kv) ->
  fold_left add_option kwargs acc = acc ++ flat_map tokens_of kwargs.
Proof.
  intros Hstep. revert acc.
  induction kwargs as [|kv kwargs IH]; intros acc; simpl.
  - by rewrite app_nil_r.
  - rewrite IH.
    assert (Hkv : add_option acc kv = acc ++ tokens_of kv).
    { rewrite <- Hstep. unfold add_option. by destruct (kv.2). }
    by rewrite Hkv, <- app_assoc.
Qed.

Lemma dashed_chars (k : string) :
  dashed k = string_of_list_ascii
               (map (fun c => if Ascii.eqb c "_" then "-"%char else c)
                    (list_ascii_of_string k)).
Proof. induction k as [|c k IH]; simpl; [reflexivity | by rewrite IH]. Qed.

Lemma dashed_length (k : string) : String.length (dashed k) = String.length k.
Proof. induction k as [|c k IH]; simpl; [reflexivity | by rewrite IH]. Qed.

Lemma add_option_tokens (kv : string * argval) : add_option [] kv = tokens_of kv.
Proof.
  unfold add_option, tokens_of, flag_of.
  rewrite dashed_length, <- dashed_chars. by destruct (kv.2).
Qed.

(** C6. The command line that [solve_image] builds is the one the
    specification describes: [solve-field], the working directory as both
    [--dir] and [--temp-dir], then for each option in turn a bare flag when
    its value is [True] and the flag followed by the text of the value
    otherwise, one dash before a name of one character and two before a
    longer one, every underscore of the name turned into a dash, and the
    image path last. *)
Theorem C6_command_line (wd : string) (kwargs : list (string * argval)) (img : string) :
  solver_args wd kwargs img = spec_command_line wd kwargs img /\
  last (solver_args wd kwargs img) = Some img /\
  take 5 (solver_args wd kwargs img) = ["solve-field"; "--dir"; wd; "--temp-dir"; wd] /\
  (forall k : string,
     String.length (dashed k) = String.length k /\
     forall i : nat,
       String.get i (dashed k)
       = option_map (fun c => if Ascii.eqb c "_" then "-"%char else c) (String.get i k)).
Proof.
  assert (Heq : solver_args wd kwargs img = spec_command_line wd kwargs img).
  { unfold solver_args, spec_command_line.
    rewrite (fold_add_option _ _ add_option_tokens). by rewrite <- app_assoc. }
  split; [exact Heq|]. split; [|split].
  - unfold solver_args. apply last_snoc.
  - rewrite Heq. reflexivity.
  - intros k. split; [apply dashed_length|].
    induction k as [|c k IH]; intros i; simpl; [reflexivity|].
    destruct i as [|i]; [reflexivity | apply IH].
Qed.

(** ** The header summary *)

(** When [header_summary] returns, and what. *)
Lemma header_summary_ok (h : gmap string scalar) (d : dict) :
  header_summary h = Ok d <->
  exists dec ra naxis1 secpix1 prod1 deg1 naxis2 secpix2 prod2 deg2,
    h !! "DEC" = Some dec /\ h !! "RA" = Some ra /\
    h !! "NAXIS1" = Some naxis1 /\ h !! "SECPIX1" = Some secpix1 /\
    py_mul naxis1 secpix1 = Ok prod1 /\ py_truediv prod1 3600 = Ok deg1 /\
    h !! "NAXIS2" = Some naxis2 /\ h !! "SECPIX2" = Some secpix2 /\
    py_mul naxis2 secpix2 = Ok prod2 /\ py_truediv prod2 3600 = Ok deg2 /\
    d = {[ "loc" := VDict {[ "dec" := to_py dec; "ra" := to_py ra ]};
           "obj" := to_py (default (SStr "") (h !! "OBJECT"));
           "fov" := float_list [round deg1 6; round deg2 6] ]}.
Proof.
  unfold header_summary, header_item. split.
  - intros H.
    destruct (h !! "DEC") as [dec|]; [|discriminate].
    destruct (h !! "RA") as [ra|]; [|discriminate].
    destruct (h !! "NAXIS1") as [naxis1|]; [|discriminate].
    destruct (h !! "SECPIX1") as [secpix1|]; [|discriminate].
    cbn [bind] in H.
    destruct (py_mul naxis1 secpix1) as [prod1|] eqn:Hp1; [|discriminate]. cbn [bind] in H.
    destruct (py_truediv prod1 3600) as [deg1|] eqn:Hq1; [|discriminate]. cbn [bind] in H.
    destruct (h !! "NAXIS2") as [naxis2|]; [|discriminate].
    destruct (h !! "SECPIX2") as [secpix2|]; [|discriminate].
    cbn [bind] in H.
    destruct (py_mul naxis2 secpix2) as [prod2|] eqn:Hp2; [|discriminate]. cbn [bind] in H.
    destruct (py_truediv prod2 3600) as [deg2|] eqn:Hq2; [|discriminate]. cbn [bind] in H.
    injection H as <-.
    exists dec, ra, naxis1, secpix1, prod1, deg1, naxis2, secpix2, prod2, deg2.
    repeat split; assumption || reflexivity.
  - intros (dec & ra & naxis1 & secpix1 & prod1 & deg1 & naxis2 & secpix2 & prod2 & deg2
            & -> & -> & -> & -> & H1 & H2 & -> & -> & H3 & H4 & ->).
    cbn [bind]. rewrite H1. cbn [bind]. rewrite H2. cbn [bind].
    rewrite H3. cbn [bind]. rewrite H4. reflexivity.
Qed.

(** A missing key among the six makes [header_summary] raise, and what it
    raises is then a [KeyError] unless the arithmetic failed before the
    key was looked up. *)
Lemma header_summary_missing (h : gmap string scalar) (k : string) :
  k ∈ ["RA"; "DEC"; "NAXIS1"; "NAXIS2"; "SECPIX1"; "SECPIX2"] ->
  h !! k = None ->
  exists e, header_summary h = Raise e.
Proof.
  intros Hk Hnone.
  destruct (header_summary h) as [d|e] eqn:Hs; [|eauto].
  apply header_summary_ok in Hs
    as (dec & ra & n1 & s1 & p1 & q1 & n2 & s2 & p2 & q2
        & ? & ? & ? & ? & _ & _ & ? & ? & _).
  rewrite !elem_of_cons, elem_of_nil in Hk.
  destruct Hk as [->|[->|[->|[->|[->|[->|[]]]]]]]; congruence.
Qed.



(** ** The verdict *)

(** C2, as the code has it. When the arithmetic on the header does not
    fail and the count of the sources, if the text has one, has no more
    digits than [int] converts: a text with the phrase "Did not solve"
    gives a record with [solved] false, whether or not the mandatory
    fields can be read from it; and a record with [solved] true is
    returned exactly when the text lacks the phrase and the three
    mandatory fields are extracted. *)
Theorem C2_marker_decides (img : string) (t1 t2 : float)
    (h : gmap string scalar) (out : string) :
  header_usable h ->
  count_too_long out = false ->
  (contains "Did not solve" out = true ->
   exists rv, solve_result img t1 t2 h out = Ok rv /\ rv !! "solved" = Some (VBool false)) /\
  ((exists rv, solve_result img t1 t2 h out = Ok rv /\ rv !! "solved" = Some (VBool true)) <->
   contains "Did not solve" out = false /\
   exists fov center arcsec,
     field_size out = Ok fov /\ field_center out = Ok center /\ pixel_scale out = Ok arcsec).
Proof.
  intros Hu Hn. split; [|split].
  - intros Hc.
    destruct (solve_result_total img t1 t2 h out Hu Hn (or_introl Hc)) as (rv & Hrv).
    exists rv. split; [done|].
    apply solve_result_inv in Hrv as (_ & _ & Hs & _). by rewrite Hs, Hc.
  - intros (rv & Hrv & Hs).
    apply solve_result_inv in Hrv as (_ & _ & Hs' & _ & _ & Hrep).
    rewrite Hs in Hs'. injection Hs' as Hs'.
    destruct (contains "Did not solve" out); [discriminate|].
    split; [done|].
    destruct (Hrep eq_refl) as (rep & Hp & _).
    apply parse_buf_ok in Hp as (fov & center & arcsec & ? & ? & ? & _). eauto 10.
  - intros (Hc & fov & center & arcsec & H1 & H2 & H3).
    assert (Hp : is_ok (parse_buf out) = true).
    { destruct (parse_buf out) as [rep|e] eqn:Hp; [done|].
      assert (exists rep, parse_buf out = Ok rep) as (rep & Hrep)
        by (eexists; apply parse_buf_ok; eauto 10).
      congruence. }
    destruct (solve_result_total img t1 t2 h out Hu Hn (or_intror Hp)) as (rv & Hrv).
    exists rv. split; [done|].
    apply solve_result_inv in Hrv as (_ & _ & Hs & _). by rewrite Hs, Hc.
Qed.

Lemma C2_marker_decides_witness :
  (contains "Did not solve" failed_report = true ->
   exists rv, solve_result "m31.fits" 10 12.5 example_header failed_report = Ok rv /\
              rv !! "solved" = Some (VBool false)) /\
  ((exists rv, solve_result "m31.fits" 10 12.5 example_header failed_report = Ok rv /\
               rv !! "solved" = Some (VBool true)) <->
   contains "Did not solve" failed_report = false /\
   exists fov center arcsec,
     field_size failed_report = Ok fov /\ field_center failed_report = Ok center /\
     pixel_scale failed_report = Ok arcsec).
Proof.
  apply (C2_marker_decides "m31.fits" 10 12.5 example_header failed_report).
  - intros e H. vm_compute in H. discriminate.
  - vm_compute. reflexivity.
Defined.

(** The claim as written fails on two texts that have the phrase: with a
    header whose [SECPIX1] is text the arithmetic of line 132 raises
    [TypeError], which line 136 does not catch; and a count of 4301
    digits makes the [int] of line 140 raise [ValueError]. Neither gives
    a record, with [solved] false or otherwise. *)
Lemma C2_counterexample :
  contains "Did not solve" failed_report = true /\
  solve_result "m31.fits" 10 12.5 text_header failed_report = Raise TypeError /\
  contains "Did not solve" long_count_report = true /\
  solve_result "m31.fits" 10 12.5 example_header long_count_report = Raise ValueError.
Proof. repeat split; vm_compute; reflexivity. Qed.

(** ** The header summary in the record *)

(** C4, as the code has it. The record has a header summary only when
    the keys [RA], [DEC], [NAXIS1], [NAXIS2], [SECPIX1] and [SECPIX2] are
    all in the header, and the summary is then whole: the location, the
    object name and the two components of the field of view. When one of
    the six keys is missing the record has no summary at all. [OBJECT] is
    not required: without it the name in the summary is the empty
    string. *)
Theorem C4_summary_whole_or_absent (img : string) (t1 t2 : float)
    (h : gmap string scalar) (out : string) (rv : dict) :
  solve_result img t1 t2 h out = Ok rv ->
  (forall k, k ∈ ["RA"; "DEC"; "NAXIS1"; "NAXIS2"; "SECPIX1"; "SECPIX2"] ->
             h !! k = None -> rv !! "hdr" = None) /\
  (forall v, rv !! "hdr" = Some v ->
     exists dec ra fov1 fov2,
       h !! "DEC" = Some dec /\ h !! "RA" = Some ra /\
       is_Some (h !! "NAXIS1") /\ is_Some (h !! "NAXIS2") /\
       is_Some (h !! "SECPIX1") /\ is_Some (h !! "SECPIX2") /\
       v = VDict {[ "loc" := VDict {[ "dec" := to_py dec; "ra" := to_py ra ]};
                    "obj" := to_py (default (SStr "") (h !! "OBJECT"));
                    "fov" := VList [VFloat fov1; VFloat fov2] ]}).
Proof.
  intros H. apply solve_result_inv in H as (_ & _ & _ & Hh & _ & _). split.
  - intros k Hk Hnone.
    destruct (header_summary_missing h k Hk Hnone) as (e & He).
    by rewrite Hh, He.
  - intros v Hv. rewrite Hh in Hv.
    destruct (header_summary h) as [d|e] eqn:Hs; [|discriminate].
    injection Hv as <-.
    apply header_summary_ok in Hs
      as (dec & ra & n1 & s1 & p1 & q1 & n2 & s2 & p2 & q2
          & ? & ? & ? & ? & _ & _ & ? & ? & _ & _ & ->).
    exists dec, ra, (round q1 6), (round q2 6). eauto 10.
Qed.

Lemma C4_summary_whole_or_absent_witness :
  (forall k, k ∈ ["RA"; "DEC"; "NAXIS1"; "NAXIS2"; "SECPIX1"; "SECPIX2"] ->
             named_header !! k = None ->
             (<["hdr" := VDict (summary_of_example "M31")]>
                ({[ "file" := VStr "m31.fits"; "solve_time" := VFloat 2.5;
                    "solved" := VBool false ]} : dict)) !! "hdr" = None) /\
  (forall v,
     (<["hdr" := VDict (summary_of_example "M31")]>
        ({[ "file" := VStr "m31.fits"; "solve_time" := VFloat 2.5;
            "solved" := VBool false ]} : dict)) !! "hdr" = Some v ->
     exists dec ra fov1 fov2,
       named_header !! "DEC" = Some dec /\ named_header !! "RA" = Some ra /\
       is_Some (named_header !! "NAXIS1") /\ is_Some (named_header !! "NAXIS2") /\
       is_Some (named_header !! "SECPIX1") /\ is_Some (named_header !! "SECPIX2") /\
       v = VDict {[ "loc" := VDict {[ "dec" := to_py dec; "ra" := to_py ra ]};
                    "obj" := to_py (default (SStr "") (named_header !! "OBJECT"));
                    "fov" := VList [VFloat fov1; VFloat fov2] ]}).
Proof.
  apply (C4_summary_whole_or_absent "m31.fits" 10 12.5 named_header failed_report).
  vm_compute. reflexivity.
Defined.

(** The claim as written fails on a header that has the six keys and no
    [OBJECT]: the summary is there, with an empty name. *)
Lemma C4_counterexample :
  example_header !! "OBJECT" = None /\
  exists rv, solve_result "m31.fits" 10 12.5 example_header failed_report = Ok rv /\
             rv !! "hdr" = Some (VDict (summary_of_example "")).
Proof.
  split; [reflexivity|]. eexists. split; [vm_compute; reflexivity|]. reflexivity.
Qed.

(** ** [solve_image], step by step *)

(** The function unfolded along its steps: the directory, the header,
    the solver, the clean-up, and then the reconciliation of lines
    117-147. *)
Lemma solve_image_steps E img st sd kw w :
  solve_image E img st sd kw w =
    match mkdtemp E "astrometry_" ["tmp"] w with
    | (Raise e, w1) => (Raise e, w1)
    | (Ok wd, w1) =>
        match fits_header_of E img with
        | Raise e => (Raise e, w1)
        | Ok fits_header =>
            match run E (solver_args (render wd) kw img) (fs w1) with
            | Raise e => (Raise e, World (fs w1) (S (ticks w1)))
            | Ok (out, n) =>
                match (if st then write_file (pjoin wd "solver.txt") out else rm_rf E wd)
                        (World n (S (S (ticks w1)))) with
                | (Raise e, w3) => (Raise e, w3)
                | (Ok _, w3) =>
                    (solve_result img (clock E (ticks w1)) (clock E (S (ticks w1)))
                       fits_header out, w3)
                end
            end
        end
    end.
Proof.
  unfold solve_image, bindM.
  destruct (mkdtemp E "astrometry_" ["tmp"] w) as [[wd|e] w1]; [|reflexivity].
  unfold lift. destruct (fits_header_of E img) as [fits_header|e]; [|reflexivity].
  unfold monotonic, run_solver. cbn [fs ticks].
  destruct (run E (solver_args (render wd) kw img) (fs w1)) as [[out n]|e]; [|reflexivity].
  cbn [fs ticks].
  destruct ((if st then write_file (pjoin wd "solver.txt") out else rm_rf E wd)
              (World n (S (S (ticks w1))))) as [[u|e] w3]; reflexivity.
Qed.

(** Takes the clean-up step of [solve_image_steps] apart. *)
Ltac destruct_cleanup :=
  match goal with
  | |- context [(if ?b then ?x else ?y) ?w] =>
      let u := fresh "u" in
      let e := fresh "e" in
      let w3 := fresh "w3" in
      destruct ((if b then x else y) w) as [[u|e] w3]
  end.

(** A record returned by [solve_image] is one of [solve_result]. *)
Lemma solve_image_inv E img st sd kw w rv w' :
  solve_image E img st sd kw w = (Ok rv, w') ->
  exists h t1 t2 out,
    fits_header_of E img = Ok h /\ solve_result img t1 t2 h out = Ok rv.
Proof.
  rewrite solve_image_steps.
  destruct (mkdtemp E "astrometry_" ["tmp"] w) as [[wd|e] w1]; [|discriminate].
  destruct (fits_header_of E img) as [h|e]; [|discriminate].
  destruct (run E _ (fs w1)) as [[out n]|e]; [|discriminate].
  destruct_cleanup; [|discriminate].
  intros [= H _]. eauto 10.
Qed.

(** The same, when the solver prints [out]. *)
Lemma solve_image_prints_inv E img st sd kw w rv w' out :
  solver_prints E out ->
  solve_image E img st sd kw w = (Ok rv, w') ->
  exists h t1 t2, fits_header_of E img = Ok h /\ solve_result img t1 t2 h out = Ok rv.
Proof.
  intros Hp. rewrite solve_image_steps.
  destruct (mkdtemp E "astrometry_" ["tmp"] w) as [[wd|e] w1]; [|discriminate].
  destruct (fits_header_of E img) as [h|e]; [|discriminate].
  destruct (Hp (solver_args (render wd) kw img) (fs w1)) as (n & ->).
  destruct_cleanup; [|discriminate].
  intros [= H _]. eauto 10.
Qed.

(** A record of [solve_image] names its file and says whether it is
    solved. *)
Lemma solve_image_record E img st sd kw w rv w' :
  solve_image E img st sd kw w = (Ok rv, w') ->
  rv !! "file" = Some (VStr img) /\ exists b, rv !! "solved" = Some (VBool b).
Proof.
  intros H. apply solve_image_inv in H as (h & t1 & t2 & out & _ & H).
  apply solve_result_inv in H as (Hf & _ & Hs & _). eauto.
Qed.

(** When the solver cannot be started, [solve_image] raises. *)
Lemma solve_image_launch_fails E img st sd kw w :
  launch_fails E img ->
  exists e w', solve_image E img st sd kw w = (Raise e, w').
Proof.
  intros Hl. rewrite solve_image_steps.
  destruct (mkdtemp E "astrometry_" ["tmp"] w) as [[wd|e] w1]; [|eauto].
  destruct (fits_header_of E img) as [h|e]; [|eauto].
  destruct (Hl (solver_args (render wd) kw img) (fs w1)) as (e & ->); [|eauto].
  unfold solver_args. apply last_snoc.
Qed.

(** ** A parse failure *)

(** C1, as the code has it. When the text of the solver lacks the phrase
    "Did not solve" and lacks a mandatory field, the report parser
    raises ([AttributeError], or [ValueError] if a field before the
    missing one is not a number), and the exception is not contained: the
    reconciliation raises too, and so does [solve_image], whatever the
    header and the state of the world; no record is returned. *)
Theorem C1_parse_failure_propagates (E : env) (img : string) (st sd : bool)
    (kw : list (string * argval)) (out : string) (t1 t2 : float)
    (h : gmap string scalar) (w : world) :
  contains "Did not solve" out = false ->
  missing_mandatory out ->
  solver_prints E out ->
  (parse_buf out = Raise AttributeError \/ parse_buf out = Raise ValueError) /\
  (exists e, solve_result img t1 t2 h out = Raise e) /\
  (exists e w', solve_image E img st sd kw w = (Raise e, w')).
Proof.
  intros Hc Hm Hp.
  pose proof (parse_buf_missing out Hm) as Hraise.
  assert (Hres : forall t1 t2 h, exists e, solve_result img t1 t2 h out = Raise e).
  { intros. destruct Hraise as [Hr|Hr]; eapply solve_result_unparsed; eauto. }
  split; [done|]. split; [apply Hres|].
  rewrite solve_image_steps.
  destruct (mkdtemp E "astrometry_" ["tmp"] w) as [[wd|e] w1]; [|eauto].
  destruct (fits_header_of E img) as [h'|e]; [|eauto].
  destruct (Hp (solver_args (render wd) kw img) (fs w1)) as (n & ->).
  destruct_cleanup; [|eauto].
  destruct (Hres (clock E (ticks w1)) (clock E (S (ticks w1))) h') as (e & ->). eauto.
Qed.

Lemma C1_parse_failure_propagates_witness :
  (parse_buf blank_report = Raise AttributeError \/ parse_buf blank_report = Raise ValueError) /\
  (exists e, solve_result "m31.fits" 10 12.5 example_header blank_report = Raise e) /\
  (exists e w', solve_image blank_env "m31.fits" false false [("guess_scale", IsTrue)] demo_world
                = (Raise e, w')).
Proof.
  apply (C1_parse_failure_propagates blank_env "m31.fits" false false
           [("guess_scale", IsTrue)] blank_report 10 12.5 example_header demo_world).
  - reflexivity.
  - left. reflexivity.
  - intros argv n. eexists. reflexivity.
Defined.

(** The claim as written fails on [blank_report]: no record comes back,
    with [solved] false or otherwise; the [AttributeError] of the parser
    leaves [solve_image]. *)
Lemma C1_counterexample :
  contains "Did not solve" blank_report = false /\
  missing_mandatory blank_report /\
  solve_result "m31.fits" 10 12.5 example_header blank_report = Raise AttributeError /\
  (solve_image blank_env "m31.fits" false false [("guess_scale", IsTrue)] demo_world).1
  = Raise AttributeError.
Proof.
  split; [reflexivity|]. split; [left; reflexivity|].
  split; vm_compute; reflexivity.
Qed.

(** ** The batch *)

(** In the normal mode a record of [process_file] has its [solved]. *)
Lemma process_file_solved E a f w r w1 :
  test_file a = false ->
  process_file E a f w = (Ok r, w1) ->
  r !! "file" = Some (VStr f) /\
  exists b, r !! "solved" = Some (VBool b) /\ solved_true r = b.
Proof.
  unfold process_file. intros -> H.
  apply solve_image_record in H as (Hf & b & Hb).
  split; [done|]. exists b. split; [done|].
  unfold solved_true. rewrite Hb. by destruct b.
Qed.

(** One turn of the loop, in the normal mode. *)
Lemma main_loop_step E a f fl acc w :
  test_file a = false ->
  main_loop E a (f :: fl) acc w =
    match process_file E a f w with
    | (Ok r, w1) => main_loop E a fl (if kept a r then acc ++ [r] else acc) w1
    | (Raise e, w1) => (Raise e, w1)
    end.
Proof.
  intros Ht. cbn [main_loop]. unfold bindM at 1.
  destruct (process_file E a f w) as [[r|e] w1] eqn:Hp; [|reflexivity].
  destruct (process_file_solved _ _ _ _ _ _ Ht Hp) as (_ & b & Hb & Hs).
  unfold bindM, lift, getitem, kept. rewrite Hb, Hs. cbn [truthy].
  by destruct (b || (1 <? verbose a)%nat).
Qed.

Lemma main_loop_ok E a fl acc w out w' :
  test_file a = false ->
  main_loop E a fl acc w = (Ok out, w') <->
  exists records, runs E a fl w records w' /\ out = acc ++ List.filter (kept a) records.
Proof.
  intros Ht. revert acc w. induction fl as [|f fl IH]; intros acc w.
  - cbn [main_loop]. unfold ret. split.
    + intros [= <- <-]. exists []. split; [constructor | by rewrite app_nil_r].
    + intros (records & Hr & ->). inversion Hr; subst. by rewrite app_nil_r.
  - rewrite (main_loop_step _ _ _ _ _ _ Ht). split.
    + destruct (process_file E a f w) as [[r|e] w1] eqn:Hp; [|discriminate].
      intros H. apply IH in H as (records & Hr & ->).
      exists (r :: records). split; [by econstructor|].
      cbn [List.filter]. destruct (kept a r); [by rewrite <- app_assoc | done].
    + intros (records & Hr & ->). inversion Hr as [|? ? ? w1 ? r rs Hp Hrs]; subst.
      rewrite Hp. apply IH. exists rs. split; [done|].
      cbn [List.filter]. destruct (kept a r); [by rewrite <- app_assoc | done].
Qed.

Lemma runs_files E a fl w records w' :
  test_file a = false ->
  runs E a fl w records w' ->
  Forall2 (fun f r => r !! "file" = Some (VStr f)) fl records.
Proof.
  intros Ht Hr. induction Hr as [|f fl w w1 w2 r rs Hp _ IH]; constructor; [|done].
  by destruct (process_file_solved _ _ _ _ _ _ Ht Hp).
Qed.

(** C9, as the code has it. The files are processed in input order, each
    from the world the one before left, and the output is the list of
    their records, in that order, from which the records that are not
    solved are left out, unless the verbosity count is 2 or more, when
    every record is kept. (With a count of 1 the unsolved records are left
    out as with 0.) *)
Theorem C9_inclusion_policy (E : env) (a : args) (w w' : world) (out : list dict) :
  test_file a = false ->
  (main E a w = (Ok out, w') <->
   exists records, runs E a (files a) w records w' /\ out = List.filter (kept a) records) /\
  (forall records w2, runs E a (files a) w records w2 ->
     Forall2 (fun f r => r !! "file" = Some (VStr f)) (files a) records) /\
  (forall records : list dict,
     ((1 < verbose a)%nat -> List.filter (kept a) records = records) /\
     ((verbose a <= 1)%nat -> List.filter (kept a) records = List.filter solved_true records)).
Proof.
  intros Ht. split; [|split].
  - unfold main. apply (main_loop_ok E a (files a) [] w out w' Ht).
  - intros records w2. apply runs_files, Ht.
  - intros records. unfold kept. split; intros Hv.
    + apply Nat.ltb_lt in Hv. rewrite Hv.
      induction records as [|r rs IH]; [done|]. cbn [List.filter].
      rewrite orb_true_r. by rewrite IH.
    + assert (Hf : (1 <? verbose a)%nat = false) by (apply Nat.ltb_ge; lia).
      rewrite Hf. apply List.filter_ext. intros r. apply orb_false_r.
Qed.

Lemma C9_inclusion_policy_witness :
  (main mixed_env (batch 0 false) demo_world = (Ok [], demo_world) <->
   exists records, runs mixed_env (batch 0 false) (files (batch 0 false)) demo_world
                     records demo_world /\
                   [] = List.filter (kept (batch 0 false)) records) /\
  (forall records w2, runs mixed_env (batch 0 false) (files (batch 0 false)) demo_world
                        records w2 ->
     Forall2 (fun f r => r !! "file" = Some (VStr f)) (files (batch 0 false)) records) /\
  (forall records : list dict,
     ((1 < verbose (batch 0 false))%nat ->
      List.filter (kept (batch 0 false)) records = records) /\
     ((verbose (batch 0 false) <= 1)%nat ->
      List.filter (kept (batch 0 false)) records = List.filter solved_true records)).
Proof.
  apply (C9_inclusion_policy mixed_env (batch 0 false) demo_world demo_world []).
  reflexivity.
Defined.

(** The claim as written fails with one [-v]: the batch is in verbose
    mode, [b.fits] is not solved, and its record is left out. *)
Lemma C9_counterexample :
  verbose (batch 1 false) = 1%nat /\
  match main mixed_env (batch 1 false) demo_world with
  | (Ok out, _) => map (fun r : dict => r !! "file") out
                   = [Some (VStr "a.fits"); Some (VStr "c.fits")]
  | (Raise _, _) => False
  end.
Proof. split; [reflexivity|]. vm_compute. reflexivity. Qed.

(** With two [-v] the record of [b.fits] is kept, in its place. *)
Lemma batch_very_verbose :
  match main mixed_env (batch 2 false) demo_world with
  | (Ok out, _) => map (fun r : dict => (r !! "file", r !! "solved")) out
                   = [(Some (VStr "a.fits"), Some (VBool true));
                      (Some (VStr "b.fits"), Some (VBool false));
                      (Some (VStr "c.fits"), Some (VBool true))]
  | (Raise _, _) => False
  end.
Proof. vm_compute. reflexivity. Qed.

(** ** A solver that cannot be started *)

Lemma main_loop_raises E a fl acc w f :
  test_file a = false ->
  f ∈ fl ->
  launch_fails E f ->
  exists e w', main_loop E a fl acc w = (Raise e, w').
Proof.
  intros Ht Hin Hl. revert acc w.
  induction fl as [|g fl IH]; intros acc w; [by apply elem_of_nil in Hin|].
  rewrite (main_loop_step _ _ _ _ _ _ Ht).
  apply elem_of_cons in Hin as [<-|Hin].
  - unfold process_file. rewrite Ht.
    destruct (solve_image_launch_fails E f (save_temps a) (2 <? verbose a)%nat
                [("guess_scale", IsTrue)] w Hl) as (e & w' & ->). eauto.
  - destruct (process_file E a g w) as [[r|e] w1]; [|eauto]. by apply IH.
Qed.

(** The files after one that cannot be started play no part. *)
Lemma main_loop_stops E a pre f post post' acc w :
  test_file a = false ->
  launch_fails E f ->
  main_loop E a (pre ++ f :: post) acc w = main_loop E a (pre ++ f :: post') acc w.
Proof.
  intros Ht Hl. revert acc w.
  induction pre as [|g pre IH]; intros acc w; cbn [app];
    rewrite !(main_loop_step _ _ _ _ _ _ Ht).
  - unfold process_file. rewrite Ht.
    by destruct (solve_image_launch_fails E f (save_temps a) (2 <? verbose a)%nat
                   [("guess_scale", IsTrue)] w Hl) as (e & w' & ->).
  - destruct (process_file E a g w) as [[r|e] w1]; [apply IH | reflexivity].
Qed.

(** C3, as the code has it. When the solver cannot be started on one of
    the files, the exception leaves [solve_image] and the loop of [main]:
    the batch ends there, with no output list; no record is made for the
    failing file and the files after it are not processed, the outcome
    being the same whatever they are. *)
Theorem C3_launch_failure_aborts (E : env) (a : args) (w : world) (f : string) :
  test_file a = false ->
  f ∈ files a ->
  launch_fails E f ->
  (forall w0, exists e w', process_file E a f w0 = (Raise e, w')) /\
  (exists e w', main E a w = (Raise e, w')) /\
  (forall pre post post' acc w0,
     main_loop E a (pre ++ f :: post) acc w0 = main_loop E a (pre ++ f :: post') acc w0).
Proof.
  intros Ht Hin Hl. split; [|split].
  - intros w0. unfold process_file. rewrite Ht. by apply solve_image_launch_fails.
  - by apply (main_loop_raises E a (files a) [] w f).
  - intros. by apply main_loop_stops.
Qed.

Lemma broken_env_fails : launch_fails broken_env "b.fits".
Proof. intros argv n Hlast. eexists. cbn. rewrite Hlast. reflexivity. Qed.

Lemma C3_launch_failure_aborts_witness :
  (forall w0, exists e w', process_file broken_env (batch 0 false) "b.fits" w0 = (Raise e, w')) /\
  (exists e w', main broken_env (batch 0 false) demo_world = (Raise e, w')) /\
  (forall pre post post' acc w0,
     main_loop broken_env (batch 0 false) (pre ++ "b.fits" :: post) acc w0
     = main_loop broken_env (batch 0 false) (pre ++ "b.fits" :: post') acc w0).
Proof.
  apply (C3_launch_failure_aborts broken_env (batch 0 false) demo_world "b.fits").
  - reflexivity.
  - cbn. rewrite !elem_of_cons. auto.
  - intros argv n Hlast. eexists. cbn. rewrite Hlast. reflexivity.
Defined.

(** The claim as written fails on a batch of three files of which the
    second cannot be started: [main] raises the [OSError] of the launch
    and returns no list, where the claim has three records. *)
Lemma C3_counterexample :
  launch_fails broken_env "b.fits" /\
  files (batch 2 false) = ["a.fits"; "b.fits"; "c.fits"] /\
  (main broken_env (batch 2 false) demo_world).1 = Raise OSError /\
  ~ exists out w', main broken_env (batch 2 false) demo_world = (Ok out, w')
                   /\ length out = 3%nat.
Proof.
  split; [apply broken_env_fails|]. split; [reflexivity|].
  assert (H : (main broken_env (batch 2 false) demo_world).1 = Raise OSError)
    by (vm_compute; reflexivity).
  split; [exact H|]. intros (out & w' & Hm & _). rewrite Hm in H. discriminate.
Qed.

(** ** Transcripts *)

(** C10. With the flag that takes the files as transcripts of the solver,
    the record of a transcript that parses is the report with [file] and
    [solve_time] 0.0 added, and has no [solved]; the test of line 172
    then raises [KeyError], whatever the verbosity, and the batch ends
    there. *)
Theorem C10_transcript_keyerror (E : env) (a : args) (f : string) (rest : list string)
    (acc : list dict) (w : world) (text : string) (report : dict) :
  test_file a = true ->
  read_file E f = Ok text ->
  parse_buf text = Ok report ->
  let record := <["solve_time" := VFloat 0]> (<["file" := VStr f]> report) in
  process_file E a f w = (Ok record, w) /\
  record !! "solved" = None /\
  (forall k v, report !! k = Some v -> record !! k = Some v) /\
  main_loop E a (f :: rest) acc w = (Raise KeyError, w) /\
  (files a = f :: rest -> main E a w = (Raise KeyError, w)).
Proof.
  intros Ht Hr Hp record.
  assert (Hpf : process_file E a f w = (Ok record, w)).
  { unfold process_file. rewrite Ht. unfold bindM, lift, ret. by rewrite Hr, Hp. }
  assert (Hs : record !! "solved" = None).
  { unfold record. rewrite !lookup_insert_ne by discriminate.
    apply (parse_buf_not_own _ _ _ Hp). rewrite !elem_of_cons. tauto. }
  assert (Hloop : forall acc, main_loop E a (f :: rest) acc w = (Raise KeyError, w)).
  { intros acc'. cbn [main_loop]. unfold bindM at 1. rewrite Hpf.
    unfold bindM, lift, getitem. by rewrite Hs. }
  split; [done|]. split; [done|]. split; [|split].
  - intros k v Hk. unfold record.
    assert (k <> "solve_time" /\ k <> "file") as [? ?].
    { split; intros ->.
      - rewrite (parse_buf_not_own _ _ "solve_time" Hp) in Hk; [done|].
        rewrite !elem_of_cons. tauto.
      - rewrite (parse_buf_not_own _ _ "file" Hp) in Hk; [done|].
        rewrite !elem_of_cons. tauto. }
    by rewrite !lookup_insert_ne.
  - apply Hloop.
  - intros Hf. unfold main. rewrite Hf. apply Hloop.
Qed.

Lemma C10_transcript_keyerror_witness :
  let record : dict :=
    <["solve_time" := VFloat 0]>
      (<["file" := VStr "a.fits"]>
         ({[ "fov" := VList [VFloat 1.5; VFloat 1.2];
             "field_center" := VDict {[ "ra" := VFloat 10.5; "dec" := VFloat (-20.25) ]};
             "arcsec_pp" := VFloat 1.2;
             "stars" := VList [VStr "Polaris"];
             "constellations" := VList [VStr "Ursa Minor"];
             "ic" := VList [];
             "ngc" := VList [] ]} : dict)) in
  process_file mixed_env (batch 2 true) "a.fits" demo_world = (Ok record, demo_world) /\
  record !! "solved" = None /\
  (forall k v,
     ({[ "fov" := VList [VFloat 1.5; VFloat 1.2];
         "field_center" := VDict {[ "ra" := VFloat 10.5; "dec" := VFloat (-20.25) ]};
         "arcsec_pp" := VFloat 1.2;
         "stars" := VList [VStr "Polaris"];
         "constellations" := VList [VStr "Ursa Minor"];
         "ic" := VList [];
         "ngc" := VList [] ]} : dict) !! k = Some v -> record !! k = Some v) /\
  main_loop mixed_env (batch 2 true) ("a.fits" :: ["b.fits"; "c.fits"]) [] demo_world
  = (Raise KeyError, demo_world) /\
  (files (batch 2 true) = "a.fits" :: ["b.fits"; "c.fits"] ->
   main mixed_env (batch 2 true) demo_world = (Raise KeyError, demo_world)).
Proof.
  apply (C10_transcript_keyerror mixed_env (batch 2 true) "a.fits" ["b.fits"; "c.fits"] []
           demo_world example_report).
  - reflexivity.
  - reflexivity.
  - vm_compute. reflexivity.
Defined.

(** ** The file system *)

Section FileSystem.

Implicit Types (n c : node) (d p q : path) (es : gmap string node).

Lemma split_last_snoc d x : split_last (d ++ [x]) = Some (d, x).
Proof.
  induction d as [|y d IH]; [reflexivity|].
  cbn [app split_last]. rewrite IH. by destruct (d ++ [x]) eqn:Hd; [destruct d|].
Qed.

Lemma lookup_path_snoc n d x :
  lookup_path n (d ++ [x])
  = match lookup_path n d with
    | Some (Dir es) => es !! x
    | _ => None
    end.
Proof.
  revert n. induction d as [|y d IH]; intros n; cbn [app lookup_path].
  - destruct n as [data|es]; [reflexivity|]. by destruct (es !! x).
  - destruct n as [data|es]; [reflexivity|]. destruct (es !! y) as [c|]; [apply IH | reflexivity].
Qed.

(** Changing the entries of a directory that is there. *)
Lemma modify_dir_lookup d f n es :
  lookup_path n d = Some (Dir es) ->
  modify_dir d f n = let* es' := f es in Ok (replace_dir d es' n).
Proof.
  revert n. induction d as [|x d IH]; intros n H; destruct n as [data|es0]; cbn in H.
  - discriminate.
  - injection H as ->. reflexivity.
  - discriminate.
  - cbn [modify_dir replace_dir]. destruct (es0 !! x) as [c|]; [|discriminate].
    rewrite (IH c H). by destruct (f es).
Qed.

Lemma lookup_replace_dir d es' n es :
  lookup_path n d = Some (Dir es) ->
  lookup_path (replace_dir d es' n) d = Some (Dir es').
Proof.
  revert n. induction d as [|x d IH]; intros n H; destruct n as [data|es0]; cbn in H.
  - discriminate.
  - reflexivity.
  - discriminate.
  - cbn [replace_dir]. destruct (es0 !! x) as [c|] eqn:Hx; [|discriminate].
    cbn [lookup_path]. rewrite lookup_insert_eq. by apply IH.
Qed.

(** An operation that only raises [OSError] inside a directory only raises
    [OSError]. *)
Lemma modify_dir_raises d f n e :
  (forall es e', f es = Raise e' -> e' = OSError) ->
  modify_dir d f n = Raise e -> e = OSError.
Proof.
  intros Hf. revert n. induction d as [|x d IH]; intros n H; destruct n as [data|es0];
    cbn in H; try (by injection H as <-).
  - destruct (f es0) eqn:Hfe; [discriminate|]. injection H as <-. eauto.
  - destruct (es0 !! x) as [c|]; [|by injection H as <-].
    destruct (modify_dir d f c) eqn:Hm; [discriminate|]. injection H as <-. eauto.
Qed.

(** An operation that only takes entries away makes no path appear. *)
Lemma modify_dir_shrinks d f n n' p :
  (forall es es', f es = Ok es' -> es' ⊆ es) ->
  modify_dir d f n = Ok n' ->
  lookup_path n p = None -> lookup_path n' p = None.
Proof.
  intros Hf. revert n n' p.
  induction d as [|x d IH]; intros n n' p H Hp; destruct n as [data|es0];
    cbn in H; try discriminate.
  - destruct (f es0) as [es'|] eqn:Hfe; [|discriminate]. injection H as <-.
    destruct p as [|y p]; [discriminate|]. cbn in *.
    destruct (es' !! y) as [c|] eqn:Hy; [|reflexivity].
    by rewrite (lookup_weaken _ _ _ _ Hy (Hf _ _ Hfe)) in Hp.
  - destruct (es0 !! x) as [c|] eqn:Hx; [|discriminate].
    destruct (modify_dir d f c) as [c'|] eqn:Hm; [|discriminate]. injection H as <-.
    destruct p as [|y p]; [discriminate|]. cbn in *.
    destruct (decide (x = y)) as [<-|Hne].
    + rewrite lookup_insert_eq. rewrite Hx in Hp. eauto.
    + by rewrite lookup_insert_ne.
Qed.

End FileSystem.

(** ** [rm_rf] *)

Section Cleanup.

Context (E : env).
Implicit Types (d : path) (es : gmap string node) (w : world).



(** What an attempt on each of [names] leaves of [es]. *)
Lemma fold_unlink_lookup d names es k :
  fold_left (unlink_entry E d) names es !! k
  = match es !! k with
    | Some nd => if bool_decide (k ∈ names) && removable E d k nd then None else Some nd
    | None => None
    end.
Proof.
  revert es. induction names as [|x names IH]; intros es; cbn [fold_left].
  - destruct (es !! k); [|done]. by rewrite bool_decide_eq_false_2 by apply not_elem_of_nil.
  - rewrite IH. unfold unlink_entry.
    destruct (decide (k = x)) as [->|Hne].
    + rewrite (bool_decide_eq_true_2 (x ∈ x :: names)) by apply list_elem_of_here.
      destruct (es !! x) as [nd|] eqn:Hx; [|by rewrite Hx].
      destruct (removable E d x nd) eqn:Hr.
      * by rewrite lookup_delete_eq.
      * rewrite Hx, Hr. by rewrite andb_false_r.
    + assert (Hin : bool_decide (k ∈ x :: names) = bool_decide (k ∈ names)).
      { apply bool_decide_ext. rewrite elem_of_cons.
        split; [intros [?|?]; [congruence | done] | by right]. }
      rewrite Hin.
      destruct (es !! x) as [nd|] eqn:Hx; [|done].
      destruct (removable E d x nd); [|done].
      by rewrite lookup_delete_ne.
Qed.

Lemma leftover_lookup d es k :
  leftover E d es !! k
  = match es !! k with
    | Some nd => if removable E d k nd then None else Some nd
    | None => None
    end.
Proof.
  unfold leftover. rewrite fold_unlink_lookup.
  destruct (es !! k) as [nd|] eqn:Hk; [|done].
  rewrite bool_decide_eq_true_2; [done|].
  apply list_elem_of_fmap. exists (k, nd). split; [done|].
  by apply elem_of_map_to_list.
Qed.

(** Nothing is left when every entry can be unlinked. *)
Lemma leftover_empty d es :
  leftover E d es = ∅ <-> forall x nd, es !! x = Some nd -> removable E d x nd = true.
Proof.
  rewrite map_empty. split.
  - intros H x nd Hx. specialize (H x). rewrite leftover_lookup, Hx in H.
    by destruct (removable E d x nd).
  - intros H k. rewrite leftover_lookup.
    destruct (es !! k) as [nd|] eqn:Hk; [|done]. by rewrite (H k nd Hk).
Qed.

(** [rmdir] only raises [OSError], and only takes an entry away. *)
Lemma rmdir_cases p w :
  (exists w', rmdir E p w = (Ok tt, w') /\ ticks w' = ticks w /\
     forall q, lookup_path (fs w) q = None -> lookup_path (fs w') q = None) \/
  rmdir E p w = (Raise OSError, w).
Proof.
  unfold rmdir. destruct (split_last p) as [[d x]|]; [|by right].
  unfold on_fs.
  destruct (modify_dir d _ (fs w)) as [n'|e] eqn:Hm.
  - left. eexists. split; [reflexivity|]. split; [reflexivity|].
    intros q. cbn [fs]. eapply modify_dir_shrinks; [|exact Hm].
    intros es es' H. cbn beta in H.
    destruct (es !! x) as [[data|sub]|]; try discriminate.
    destruct (can_remove E p && bool_decide (sub = ∅)); [|discriminate].
    injection H as <-. apply delete_subseteq.
  - right. f_equal. f_equal. eapply modify_dir_raises; [|exact Hm].
    intros es e' H. cbn beta in H.
    destruct (es !! x) as [[data|sub]|]; try (by injection H as <-).
    destruct (can_remove E p && bool_decide (sub = ∅)); [discriminate|].
    by injection H as <-.
Qed.

(** The removal of the parents raises nothing and makes no path appear. *)
Lemma prune_spec ps w :
  exists w', prune E ps w = (Ok tt, w') /\ ticks w' = ticks w /\
    forall q, lookup_path (fs w) q = None -> lookup_path (fs w') q = None.
Proof.
  revert w. induction ps as [|p ps IH]; intros w; cbn [prune].
  - by exists w.
  - destruct (rmdir_cases p w) as [(w1 & -> & Ht & Hq)| ->].
    + destruct (IH w1) as (w' & -> & Ht' & Hq').
      exists w'. split; [done|]. split; [congruence | auto].
    + by exists w.
Qed.


End Cleanup.

(** ** The working directory of [solve_image] *)

Lemma mkdtemp_inv E prefix dir w wd w1 :
  mkdtemp E prefix dir w = (Ok wd, w1) ->
  ticks w1 = ticks w /\ exists name, wd = pjoin dir name.
Proof.
  unfold mkdtemp, bindM, listdir, on_fs, ret.
  destruct (lookup_path (fs w) dir) as [[data|es]|]; try discriminate.
  destruct (modify_dir dir _ (fs w)); [|discriminate].
  intros [= <- <-]. eauto.
Qed.





(** * Further properties of [astroprobe.py] *)

(** ** [rm_rf], lines 37-47 *)



(** X2. The listing of the directory is outside the [try] blocks: when
    the path is not a directory (it is missing, or a file), [rm_rf] raises
    the [OSError] of [listdir] and removes nothing. *)
Theorem X2_rm_rf_not_a_directory (E : env) (d : path) (w : world) :
  (forall es, lookup_path (fs w) d <> Some (Dir es)) ->
  rm_rf E d w = (Raise OSError, w).
Proof.
  intros Hd. unfold rm_rf, bindM, listdir.
  destruct (lookup_path (fs w) d) as [[data|es]|] eqn:Hl; try reflexivity.
  by destruct (Hd es).
Qed.

Lemma X2_rm_rf_not_a_directory_witness :
  rm_rf littering_env ["tmp"; "gone"] demo_world_solved = (Raise OSError, demo_world_solved).
Proof.
  apply (X2_rm_rf_not_a_directory littering_env ["tmp"; "gone"] demo_world_solved).
  intros es H. vm_compute in H. discriminate.
Defined.

Lemma parents_snoc (d : path) (x : string) : parents (d ++ [x]) = d :: parents d.
Proof.
  unfold parents. rewrite length_app. cbn [length].
  replace (length d + 1)%nat with (S (length d)) by lia.
  rewrite seq_S, rev_app_distr. cbn [rev app map plus].
  f_equal; [by rewrite firstn_app, firstn_all, Nat.sub_diag, app_nil_r|].
  apply map_ext_in. intros k Hk. apply in_rev, in_seq in Hk.
  rewrite firstn_app. replace (k - length d)%nat with 0%nat by lia.
  by rewrite app_nil_r.
Qed.

(** Changing the entries of a directory changes one entry of its
    parent. *)
Lemma lookup_replace_dir_parent (p : path) (x : string) (es' es pes : gmap string node)
    (n : node) :
  lookup_path n (p ++ [x]) = Some (Dir es) ->
  lookup_path n p = Some (Dir pes) ->
  lookup_path (replace_dir (p ++ [x]) es' n) p = Some (Dir (<[x := Dir es']> pes)).
Proof.
  revert n. induction p as [|y p IH]; intros n Hd Hp; destruct n as [data|es0];
    cbn in Hd, Hp; try discriminate.
  - injection Hp as ->. cbn. destruct (pes !! x) as [c|] eqn:Hx; [|discriminate].
    cbn in Hd. injection Hd as ->. reflexivity.
  - cbn [app replace_dir]. destruct (es0 !! y) as [c|] eqn:Hy; [|discriminate].
    cbn [lookup_path]. rewrite lookup_insert_eq. by apply IH.
Qed.

Section Parents.

Context (E : env).

(** The loop of [rm_rf], seen from the parent of the directory. *)
Lemma rm_rf_loop_parent (p : path) (x : string) (names : list string) (w : world)
    (es pes : gmap string node) :
  lookup_path (fs w) (pjoin p x) = Some (Dir es) ->
  lookup_path (fs w) p = Some (Dir pes) ->
  exists w', rm_rf_loop E (pjoin p x) names w = (Ok tt, w') /\
    ticks w' = ticks w /\
    lookup_path (fs w') p
    = Some (Dir (<[x := Dir (fold_left (unlink_entry E (pjoin p x)) names es)]> pes)).
Proof.
  revert w es pes. induction names as [|k names IH]; intros w es pes Hd Hp.
  - exists w. split; [done|]. split; [done|]. cbn [fold_left].
    rewrite insert_id; [done|].
    unfold pjoin in Hd. rewrite lookup_path_snoc, Hp in Hd. done.
  - cbn [rm_rf_loop fold_left]. unfold bindM.
    assert (Hstep : exists w1,
               ignoring_oserror (unlink E (pjoin (pjoin p x) k)) w = (Ok tt, w1) /\
               ticks w1 = ticks w /\
               lookup_path (fs w1) (pjoin p x) = Some (Dir (unlink_entry E (pjoin p x) es k)) /\
               lookup_path (fs w1) p
               = Some (Dir (<[x := Dir (unlink_entry E (pjoin p x) es k)]> pes))).
    { assert (Hid : <[x := Dir es]> pes = pes).
      { apply insert_id. unfold pjoin in Hd. by rewrite lookup_path_snoc, Hp in Hd. }
      unfold unlink, unlink_entry, removable, ignoring_oserror, on_fs, pjoin in *.
      rewrite split_last_snoc, (modify_dir_lookup _ _ _ _ Hd).
      destruct (es !! k) as [[data|sub]|] eqn:Hk; cbn [bind].
      - destruct (can_remove E ((p ++ [x]) ++ [k])); cbn [bind].
        + eexists. split; [reflexivity|]. split; [reflexivity|]. cbn [fs]. split.
          * by eapply lookup_replace_dir.
          * by eapply lookup_replace_dir_parent.
        + exists w. by rewrite Hid.
      - exists w. by rewrite Hid.
      - exists w. by rewrite Hid. }
    destruct Hstep as (w1 & -> & Ht & Hd1 & Hp1).
    destruct (IH w1 _ _ Hd1 Hp1) as (w' & -> & Ht' & Hp').
    exists w'. split; [done|]. split; [congruence|].
    by rewrite Hp', insert_insert_eq.
Qed.

(** [rmdir] on an empty directory that may be removed. *)
Lemma rmdir_spec (p : path) (x : string) (w : world) (pes : gmap string node) :
  lookup_path (fs w) p = Some (Dir pes) ->
  pes !! x = Some (Dir ∅) ->
  can_remove E (pjoin p x) = true ->
  exists w', rmdir E (pjoin p x) w = (Ok tt, w') /\
    ticks w' = ticks w /\
    lookup_path (fs w') p = Some (Dir (delete x pes)).
Proof.
  intros Hp Hx Hrm. unfold rmdir. unfold pjoin at 1. rewrite split_last_snoc.
  unfold on_fs. rewrite (modify_dir_lookup _ _ _ _ Hp), Hx, Hrm.
  rewrite bool_decide_eq_true_2 by done. cbn [andb bind].
  eexists. split; [reflexivity|]. split; [reflexivity|].
  cbn [fs]. by eapply lookup_replace_dir.
Qed.

End Parents.

(** X3. [rm_rf] ends with [os.removedirs], which goes up: when the
    directory was the only entry of its parent, every entry of it could be
    unlinked, and the process may remove both, the parent is removed as
    well. (For the working directory of [solve_image] the parent is
    [/tmp].) *)
Theorem X3_rm_rf_removes_empty_parent (E : env) (gp : path) (y x : string) (w : world)
    (es : gmap string node) :
  lookup_path (fs w) (pjoin gp y) = Some (Dir {[ x := Dir es ]}) ->
  (forall k nd, es !! k = Some nd -> removable E (pjoin (pjoin gp y) x) k nd = true) ->
  can_remove E (pjoin (pjoin gp y) x) = true ->
  can_remove E (pjoin gp y) = true ->
  exists w', rm_rf E (pjoin (pjoin gp y) x) w = (Ok tt, w') /\
    lookup_path (fs w') (pjoin gp y) = None /\
    lookup_path (fs w') (pjoin (pjoin gp y) x) = None.
Proof.
  intros Hp Hall Hrm Hrmp.
  assert (Hd : lookup_path (fs w) (pjoin (pjoin gp y) x) = Some (Dir es)).
  { unfold pjoin at 1. rewrite lookup_path_snoc, Hp. apply lookup_singleton_eq. }
  apply leftover_empty in Hall.
  unfold rm_rf, bindM at 1, listdir. rewrite Hd. unfold bindM at 1.
  destruct (rm_rf_loop_parent E (pjoin gp y) x (map fst (map_to_list es)) w es _ Hd Hp)
    as (w1 & -> & _ & Hp1).
  fold (leftover E (pjoin (pjoin gp y) x) es) in Hp1. rewrite Hall in Hp1.
  rewrite insert_singleton_eq in Hp1.
  unfold ignoring_oserror, removedirs, bindM.
  destruct (rmdir_spec E (pjoin gp y) x w1 _ Hp1 (lookup_singleton_eq _ _) Hrm)
    as (w2 & -> & _ & Hp2).
  rewrite delete_singleton_eq in Hp2.
  unfold pjoin at 1. rewrite parents_snoc. cbn [prune].
  assert (Hgp : exists gpes, lookup_path (fs w2) gp = Some (Dir gpes)
                             /\ gpes !! y = Some (Dir ∅)).
  { unfold pjoin in Hp2. rewrite lookup_path_snoc in Hp2.
    destruct (lookup_path (fs w2) gp) as [[data|gpes]|]; try discriminate. eauto. }
  destruct Hgp as (gpes & Hgp & Hy).
  destruct (rmdir_spec E gp y w2 gpes Hgp Hy Hrmp) as (w3 & -> & _ & Hgp3).
  destruct (prune_spec E (parents (pjoin gp y)) w3) as (w' & -> & _ & Hq).
  exists w'. split; [done|].
  assert (Hnone : lookup_path (fs w3) (pjoin gp y) = None).
  { unfold pjoin. rewrite lookup_path_snoc, Hgp3. apply lookup_delete_eq. }
  split.
  - by apply Hq.
  - apply Hq. unfold pjoin at 1. by rewrite lookup_path_snoc, Hnone.
Qed.

Lemma X3_rm_rf_removes_empty_parent_witness :
  exists w', rm_rf (demo_env (fun _ => failed_report) [] id [])
               (pjoin (pjoin [] "tmp") "astrometry_q7k2") demo_world_solved = (Ok tt, w') /\
    lookup_path (fs w') (pjoin [] "tmp") = None /\
    lookup_path (fs w') (pjoin (pjoin [] "tmp") "astrometry_q7k2") = None.
Proof.
  apply (X3_rm_rf_removes_empty_parent (demo_env (fun _ => failed_report) [] id [])
           [] "tmp" "astrometry_q7k2" demo_world_solved {[ "field.axy" := File "sources" ]}).
  - vm_compute. reflexivity.
  - intros k nd H. destruct nd as [data|sub]; [reflexivity|].
    destruct (decide (k = "field.axy")) as [->|Hne].
    + vm_compute in H. discriminate.
    + rewrite lookup_singleton_ne in H by done. discriminate.
  - reflexivity.
  - reflexivity.
Defined.

(** ** [parse_buf], lines 50-64 *)

(** X4. [parse_buf] raises nothing but [AttributeError], when the pattern
    of a mandatory field matches nowhere, and [ValueError], when a field
    is matched and [float] rejects what was captured (two points, a sign
    inside). *)
Theorem X4_parse_buf_exceptions (b : string) (e : exn) :
  parse_buf b = Raise e ->
  (e = AttributeError /\ missing_mandatory b) \/
  (e = ValueError /\
   (field_size b = Raise ValueError \/ field_center b = Raise ValueError \/
    pixel_scale b = Raise ValueError)).
Proof.
  unfold parse_buf, missing_mandatory, field_size, field_center, pixel_scale,
    search_groups, search_group1.
  destruct (Re.search re_field_size b) as [m1|]; cbn [bind];
    [|intros [= <-]; left; auto].
  destruct (comprehension py_float (Re.groups b m1)) as [fov|e1] eqn:H1; cbn [bind].
  2:{ intros [= <-]. apply comprehension_raises in H1 as (g & _ & Hg).
      rewrite (py_float_raises _ _ Hg). right. auto. }
  destruct (Re.search re_field_center b) as [m2|]; cbn [bind];
    [|intros [= <-]; left; auto].
  destruct (comprehension py_float (Re.groups b m2)) as [center|e2] eqn:H2; cbn [bind].
  2:{ intros [= <-]. apply comprehension_raises in H2 as (g & _ & Hg).
      rewrite (py_float_raises _ _ Hg). right. auto. }
  destruct (Re.search re_pixel_scale b) as [m3|]; cbn [bind];
    [|intros [= <-]; left; auto].
  destruct (py_float (Re.group1 b m3)) as [arcsec|e3] eqn:H3; cbn [bind].
  2:{ intros [= <-]. rewrite (py_float_raises _ _ H3). right. auto. }
  discriminate.
Qed.

Lemma X4_parse_buf_exceptions_witness :
  (ValueError = AttributeError /\ missing_mandatory garbled_report) \/
  (ValueError = ValueError /\
   (field_size garbled_report = Raise ValueError \/
    field_center garbled_report = Raise ValueError \/
    pixel_scale garbled_report = Raise ValueError)).
Proof.
  apply (X4_parse_buf_exceptions garbled_report ValueError). vm_compute. reflexivity.
Defined.

(** A match closes each group of its pattern once. *)
Lemma match_here_spans (p : Re.pattern) (opened : list nat) (spans : list (nat * nat))
    (s : list ascii) (pos e : nat) (sp : list (nat * nat)) :
  Re.match_here p opened spans s pos = Some (e, sp) ->
  length sp = (length spans + closes p)%nat.
Proof.
  revert opened spans s pos.
  induction p as [|i p IH]; intros opened spans s pos H.
  - cbn in H. injection H as _ <-. rewrite length_rev. unfold closes. cbn. lia.
  - assert (Hc : closes (i :: p)
                 = ((match i with Re.GClose => 1 | _ => 0 end) + closes p)%nat)
      by (unfold closes; cbn; by destruct i).
    rewrite Hc. destruct i as [c|k|k|k| |]; cbn [Re.match_here] in H.
    + destruct s as [|c' s]; [discriminate|].
      destruct (Ascii.eqb c c'); [|discriminate]. apply IH in H. lia.
    + destruct s as [|c' s]; [discriminate|].
      destruct (Re.in_cls k c'); [|discriminate]. apply IH in H. lia.
    + destruct s as [|c' s]; [discriminate|].
      destruct (Re.in_cls k c'); [|discriminate].
      apply greedy_inv in H as (n & _ & _ & H). apply IH in H. lia.
    + apply greedy_inv in H as (n & _ & _ & H). apply IH in H. lia.
    + apply IH in H. lia.
    + destruct opened as [|o opened]; [discriminate|]. apply IH in H. cbn in H. lia.
Qed.

Lemma search_groups_length (p : Re.pattern) (b : string) (gs : list string) :
  search_groups p b = Ok gs -> length gs = closes p.
Proof.
  unfold search_groups, Re.search.
  destruct (Re.search_from p (list_ascii_of_string b) 0) as [m|] eqn:Hs; [|discriminate].
  intros [= <-]. apply search_from_inv in Hs as (k & _ & _ & Hm).
  apply match_here_spans in Hm. unfold Re.groups. by rewrite length_map.
Qed.

Lemma comprehension_length {A B : Type} (f : A -> result B) (l : list A) (ys : list B) :
  comprehension f l = Ok ys -> length ys = length l.
Proof.
  revert ys. induction l as [|x l IH]; intros ys; cbn.
  - by intros [= <-].
  - destruct (f x); [|discriminate]. cbn.
    destruct (comprehension f l) as [zs|]; [|discriminate]. cbn.
    intros [= <-]. cbn. f_equal. by apply IH.
Qed.

(** X5. The shape of a parsed report: [fov] is a list of two floats,
    [field_center] a dictionary with exactly [ra] and [dec], [arcsec_pp] a
    float; [constellations], [stars], [ic] and [ngc] are always there, as
    lists of strings, empty when nothing matches; [index] is a string, or
    is not there at all; and there is no other key. *)
Theorem X5_report_shape (b : string) (rep : dict) :
  parse_buf b = Ok rep ->
  (exists width height, rep !! "fov" = Some (VList [VFloat width; VFloat height])) /\
  (exists ra dec,
     rep !! "field_center" = Some (VDict {[ "ra" := VFloat ra; "dec" := VFloat dec ]})) /\
  (exists arcsec, rep !! "arcsec_pp" = Some (VFloat arcsec)) /\
  rep !! "constellations" = Some (VList (map VStr (Re.findall re_constellation b))) /\
  rep !! "stars" = Some (VList (map VStr (Re.findall re_star b))) /\
  rep !! "ic" = Some (VList (map VStr (Re.findall re_ic b))) /\
  rep !! "ngc" = Some (VList (map VStr (Re.findall re_ngc b))) /\
  (rep !! "index" = None \/ exists i, rep !! "index" = Some (VStr i)) /\
  (forall k, k ∉ report_keys -> rep !! k = None).
Proof.
  intros H. pose proof (fun k => parse_buf_keys b rep k H) as Hkeys.
  apply parse_buf_ok in H as (fov & center & arcsec & Hfov & Hcen & _ & ->).
  assert (Hf2 : exists width height, fov = [width; height]).
  { unfold field_size in Hfov. apply bind_ok in Hfov as (gs & Hs & Hc).
    apply search_groups_length in Hs. apply comprehension_length in Hc.
    rewrite Hs in Hc. destruct fov as [|x [|y [|z fov]]]; try discriminate. eauto. }
  assert (Hc2 : exists ra dec, center = [ra; dec]).
  { unfold field_center in Hcen. apply bind_ok in Hcen as (gs & Hs & Hc).
    apply search_groups_length in Hs. apply comprehension_length in Hc.
    rewrite Hs in Hc. destruct center as [|x [|y [|z center]]]; try discriminate. eauto. }
  destruct Hf2 as (width & height & ->). destruct Hc2 as (ra & dec & ->).
  assert (Hdict : dict_of_pairs (zip ["ra"; "dec"] (map VFloat [ra; dec]))
                  = {[ "ra" := VFloat ra; "dec" := VFloat dec ]}).
  { unfold dict_of_pairs. cbn. rewrite insert_empty. by apply insert_insert_ne. }
  rewrite Hdict in *. cbv zeta in *.
  split; [exists width, height|split; [exists ra, dec|split; [exists arcsec|]]].
  1-3: destruct (search_group1 re_index b);
         rewrite ?lookup_insert_ne by discriminate; by rewrite lookup_insert_eq.
  repeat split.
  1-4: destruct (search_group1 re_index b);
         rewrite ?lookup_insert_ne by discriminate; by rewrite lookup_insert_eq.
  - destruct (search_group1 re_index b) as [i|e].
    + right. exists i. by rewrite lookup_insert_eq.
    + left. by rewrite !lookup_insert_ne by discriminate.
  - intros k Hk. by apply Hkeys.
Qed.

Lemma X5_report_shape_witness :
  let rep : dict :=
    {[ "fov" := VList [VFloat 1.5; VFloat 1.2];
       "field_center" := VDict {[ "ra" := VFloat 10.5; "dec" := VFloat (-20.25) ]};
       "arcsec_pp" := VFloat 1.2;
       "stars" := VList [VStr "Polaris"];
       "constellations" := VList [VStr "Ursa Minor"];
       "ic" := VList [];
       "ngc" := VList [] ]} in
  (exists width height, rep !! "fov" = Some (VList [VFloat width; VFloat height])) /\
  (exists ra dec,
     rep !! "field_center" = Some (VDict {[ "ra" := VFloat ra; "dec" := VFloat dec ]})) /\
  (exists arcsec, rep !! "arcsec_pp" = Some (VFloat arcsec)) /\
  rep !! "constellations" = Some (VList (map VStr (Re.findall re_constellation example_report))) /\
  rep !! "stars" = Some (VList (map VStr (Re.findall re_star example_report))) /\
  rep !! "ic" = Some (VList (map VStr (Re.findall re_ic example_report))) /\
  rep !! "ngc" = Some (VList (map VStr (Re.findall re_ngc example_report))) /\
  (rep !! "index" = None \/ exists i, rep !! "index" = Some (VStr i)) /\
  (forall k, k ∉ report_keys -> rep !! k = None).
Proof.
  apply (X5_report_shape example_report). vm_compute. reflexivity.
Defined.

(** ** The record of [solve_image], lines 117-147 *)

(** The record before the report is merged in has no key of its own
    beyond these five. *)
Lemma own_keys_only img t1 t2 h out rv1 rv2 (k : string) :
  match header_summary h with
  | Ok d => Ok (<["hdr" := VDict d]>
                  ({[ "file" := VStr img;
                      "solve_time" := VFloat (round (t2 - t1)%float 3);
                      "solved" := VBool false ]} : dict))
  | Raise KeyError => Ok {[ "file" := VStr img;
                            "solve_time" := VFloat (round (t2 - t1)%float 3);
                            "solved" := VBool false ]}
  | Raise e => Raise e
  end = Ok rv1 ->
  match Re.search re_sources out with
  | Some mo => let* n := py_int (Re.group1 out mo) in Ok (<["sources" := VInt n]> rv1)
  | None => Ok rv1
  end = Ok rv2 ->
  k ∉ ["file"; "solve_time"; "solved"; "hdr"; "sources"] ->
  rv2 !! k = None.
Proof.
  intros H1 H2 Hk. rewrite !not_elem_of_cons in Hk.
  destruct Hk as (? & ? & ? & ? & ? & _).
  assert (Hr : rv1 !! k = None).
  { destruct (header_summary h) as [d|[]]; try discriminate; injection H1 as <-;
      rewrite ?lookup_insert_ne by congruence; by apply lookup_singleton_ne. }
  destruct (Re.search re_sources out) as [mo|]; [|by injection H2 as <-].
  apply bind_ok in H2 as (n & _ & [= <-]).
  by rewrite lookup_insert_ne by congruence.
Qed.

(** What follows the header in [solve_result] raises in two cases. *)
Lemma after_header_raises (rv1 : dict) (out : string) (e : exn) :
  (let* rv :=
     match Re.search re_sources out with
     | Some mo => let* n := py_int (Re.group1 out mo) in Ok (<["sources" := VInt n]> rv1)
     | None => Ok rv1
     end in
   if contains "Did not solve" out then Ok rv
   else let rv := <["solved" := VBool true]> rv in
        let* report := parse_buf out in Ok (report ∪ rv)) = Raise e <->
  (count_too_long out = true /\ e = ValueError) \/
  (count_too_long out = false /\ contains "Did not solve" out = false /\
   parse_buf out = Raise e).
Proof.
  pose proof (sources_conversion out) as Hs.
  assert (Hrest : forall rv : dict,
            (if contains "Did not solve" out then Ok rv
             else let rv := <["solved" := VBool true]> rv in
                  let* report := parse_buf out in Ok (report ∪ rv)) = Raise e <->
            contains "Did not solve" out = false /\ parse_buf out = Raise e).
  { intros rv. destruct (contains "Did not solve" out).
    - split; [discriminate | intros [? _]; discriminate].
    - cbv zeta. destruct (parse_buf out) as [rep|e1]; cbn [bind].
      + split; [discriminate | intros [_ ?]; discriminate].
      + split; [intros [= <-]; done | intros [_ [= <-]]; done]. }
  destruct (Re.search re_sources out) as [mo|].
  - destruct (count_too_long out).
    + rewrite Hs. cbn [bind]. split.
      * intros [= <-]. left. done.
      * intros [[_ ->]|[? _]]; [done | discriminate].
    + destruct Hs as (n & ->). cbn [bind]. rewrite Hrest. split.
      * intros [? ?]. right. done.
      * intros [[? _]|(_ & ? & ?)]; [discriminate | done].
  - rewrite Hs. cbn [bind]. rewrite Hrest. split.
    + intros [? ?]. right. done.
    + intros [[? _]|(_ & ? & ?)]; [discriminate | done].
Qed.

(** X6. A record that is returned has [sources] exactly when the text of
    the solver has a line [simplexy: found N sources], solved or not, and
    then holds the integer [N]. A count of more digits than [int]
    converts gives no record: unless the arithmetic on the header has
    raised before, line 140 raises [ValueError], with or without the
    phrase "Did not solve". *)
Theorem X6_sources_count (img : string) (t1 t2 : float) (h : gmap string scalar)
    (out : string) :
  (forall rv, solve_result img t1 t2 h out = Ok rv ->
     match Re.search re_sources out with
     | Some mo => exists n, py_int (Re.group1 out mo) = Ok n /\ rv !! "sources" = Some (VInt n)
     | None => rv !! "sources" = None
     end) /\
  (header_usable h -> count_too_long out = true ->
   solve_result img t1 t2 h out = Raise ValueError).
Proof.
  split.
  - unfold solve_result. cbv zeta. intros rv H.
    apply bind_ok in H as (rv1 & H1 & H). apply bind_ok in H as (rv2 & H2 & H).
    assert (Hn : rv1 !! "sources" = None).
    { destruct (header_summary h) as [d|[]]; try discriminate; injection H1 as <-;
        rewrite ?lookup_insert_ne by discriminate; by apply lookup_singleton_ne. }
    assert (Hmerge : rv !! "sources" = rv2 !! "sources").
    { destruct (contains "Did not solve" out).
      - by injection H as <-.
      - apply bind_ok in H as (rep & Hrep & [= <-]).
        rewrite lookup_union_r.
        + by rewrite lookup_insert_ne by discriminate.
        + apply (parse_buf_not_own _ _ _ Hrep). rewrite !elem_of_cons. tauto. }
    rewrite Hmerge. destruct (Re.search re_sources out) as [mo|].
    + apply bind_ok in H2 as (n & Hi & [= <-]). exists n. split; [done|].
      by rewrite lookup_insert_eq.
    + by injection H2 as <-.
  - intros Hu Hlong. unfold solve_result, header_usable in *. cbv zeta.
    destruct (header_summary h) as [d|e0]; cbn [bind].
    + apply after_header_raises. left. done.
    + rewrite (Hu e0 eq_refl). cbn [bind]. apply after_header_raises. left. done.
Qed.

Lemma X6_sources_count_witness :
  match Re.search re_sources unsolved_report with
  | Some mo =>
      exists n, py_int (Re.group1 unsolved_report mo) = Ok n /\
        ({[ "file" := VStr "m31.fits"; "solve_time" := VFloat 2.5; "solved" := VBool false;
            "sources" := VInt 12 ]} : dict) !! "sources" = Some (VInt n)
  | None =>
      ({[ "file" := VStr "m31.fits"; "solve_time" := VFloat 2.5; "solved" := VBool false;
          "sources" := VInt 12 ]} : dict) !! "sources" = None
  end /\
  solve_result "m31.fits" 10 12.5 example_header long_count_report = Raise ValueError.
Proof.
  split.
  - apply (proj1 (X6_sources_count "m31.fits" 10 12.5 ∅ unsolved_report)).
    vm_compute. reflexivity.
  - apply (proj2 (X6_sources_count "m31.fits" 10 12.5 example_header long_count_report)).
    + intros e H. vm_compute in H. discriminate.
    + vm_compute. reflexivity.
Defined.

(** X7. [solve_result] raises in three cases only, and with the
    exception of the case: the arithmetic on the header raises something
    else than [KeyError]; or, the header being usable, the count of the
    sources has more digits than [int] converts ([ValueError], whatever
    else the text says); or, these two apart, the text lacks the phrase
    "Did not solve" and [parse_buf] raises on it. *)
Theorem X7_solve_result_raises (img : string) (t1 t2 : float) (h : gmap string scalar)
    (out : string) (e : exn) :
  solve_result img t1 t2 h out = Raise e <->
  (header_summary h = Raise e /\ e <> KeyError) \/
  (header_usable h /\ count_too_long out = true /\ e = ValueError) \/
  (header_usable h /\ count_too_long out = false /\
   contains "Did not solve" out = false /\ parse_buf out = Raise e).
Proof.
  unfold solve_result. cbv zeta. unfold header_usable.
  destruct (header_summary h) as [d|e0] eqn:Hh.
  - cbn [bind]. rewrite after_header_raises. split.
    + intros [[? ?]|(? & ? & ?)]; right; [left | right]; (split; [discriminate | done]).
    + intros [[? _]|[(_ & ? & ?)|(_ & ? & ? & ?)]]; [discriminate | left | right]; done.
  - assert (Hother : e0 <> KeyError ->
              (Raise e0 = Raise e :> result dict) <->
              (Raise e0 = Raise e :> result dict) /\ e <> KeyError \/
              (forall e', Raise e0 = Raise e' :> result dict -> e' = KeyError) /\
              count_too_long out = true /\ e = ValueError \/
              (forall e', Raise e0 = Raise e' :> result dict -> e' = KeyError) /\
              count_too_long out = false /\
              contains "Did not solve" out = false /\ parse_buf out = Raise e).
    { intros Hne. split.
      - intros [= <-]. left. done.
      - intros [[? _]|[[Hu _]|[Hu _]]]; [done | |]; destruct Hne; by apply Hu. }
    destruct e0; try (cbn [bind]; apply Hother; discriminate).
    cbn [bind]. rewrite after_header_raises. split.
    + intros [[? ?]|(? & ? & ?)]; right; [left | right];
        (split; [by intros e' [= <-] | done]).
    + intros [[[= <-] ?]|[(_ & ? & ?)|(_ & ? & ? & ?)]]; [done | left | right]; done.
Qed.

(** X8. The keys of a record: none but [file], [solve_time], [solved],
    [hdr], [sources] and the keys of the report; when the text has the
    phrase "Did not solve" no key of the report, and otherwise each of
    the seven that every report has. *)
Theorem X8_record_keys (img : string) (t1 t2 : float) (h : gmap string scalar)
    (out : string) (rv : dict) :
  solve_result img t1 t2 h out = Ok rv ->
  (forall k, k ∉ ["file"; "solve_time"; "solved"; "hdr"; "sources"] ++ report_keys ->
             rv !! k = None) /\
  (contains "Did not solve" out = true -> forall k, k ∈ report_keys -> rv !! k = None) /\
  (contains "Did not solve" out = false ->
   forall k, k ∈ ["fov"; "field_center"; "arcsec_pp"; "constellations"; "stars"; "ic"; "ngc"] ->
             is_Some (rv !! k)).
Proof.
  unfold solve_result. cbv zeta. intros H.
  apply bind_ok in H as (rv1 & H1 & H). apply bind_ok in H as (rv2 & H2 & H).
  pose proof (fun k => own_keys_only img t1 t2 h out rv1 rv2 k H1 H2) as Hown.
  destruct (contains "Did not solve" out).
  - injection H as <-. split; [|split; [|discriminate]].
    + intros k Hk. apply Hown. rewrite not_elem_of_app in Hk. tauto.
    + intros _ k Hk. apply Hown. unfold report_keys in Hk.
      rewrite !elem_of_cons, elem_of_nil in Hk. rewrite !not_elem_of_cons.
      destruct Hk as [->|[->|[->|[->|[->|[->|[->|[->|[]]]]]]]]]; repeat split;
        try discriminate; apply not_elem_of_nil.
  - apply bind_ok in H as (rep & Hrep & [= <-]).
    split; [|split; [discriminate|]].
    + intros k Hk. rewrite not_elem_of_app in Hk. destruct Hk as [Hk1 Hk2].
      apply lookup_union_None. split; [by apply (parse_buf_keys _ _ _ Hrep)|].
      rewrite lookup_insert_ne; [by apply Hown|].
      rewrite !not_elem_of_cons in Hk1. intros <-. tauto.
    + intros _ k Hk. apply parse_buf_ok in Hrep as (fov & center & arcsec & _ & _ & _ & ->).
      rewrite !elem_of_cons, elem_of_nil in Hk. cbv zeta.
      assert (Hin : forall (a b : dict), is_Some (a !! k) -> is_Some ((a ∪ b) !! k)).
      { intros a b [v Hv]. exists v. by apply lookup_union_Some_l. }
      apply Hin.
      destruct (search_group1 re_index out);
        destruct Hk as [->|[->|[->|[->|[->|[->|[->|[]]]]]]]];
        rewrite ?lookup_insert_ne by discriminate; by rewrite lookup_insert_eq.
Qed.

Lemma X8_record_keys_witness :
  let rv : dict :=
    {[ "file" := VStr "m31.fits"; "solve_time" := VFloat 2.5; "solved" := VBool false;
       "sources" := VInt 12 ]} in
  (forall k, k ∉ ["file"; "solve_time"; "solved"; "hdr"; "sources"] ++ report_keys ->
             rv !! k = None) /\
  (contains "Did not solve" unsolved_report = true ->
   forall k, k ∈ report_keys -> rv !! k = None) /\
  (contains "Did not solve" unsolved_report = false ->
   forall k, k ∈ ["fov"; "field_center"; "arcsec_pp"; "constellations"; "stars"; "ic"; "ngc"] ->
             is_Some (rv !! k)).
Proof.
  apply (X8_record_keys "m31.fits" 10 12.5 ∅ unsolved_report).
  vm_compute. reflexivity.
Defined.

(** ** The header, lines 99-102 and 124-137 *)



(** X10. An image whose header cannot be read for an [OSError] is
    solved all the same, as one with an empty header: a record is built
    whenever the count of the sources can be converted and the text has
    the phrase "Did not solve" or can be parsed, and a record that is
    returned has no [hdr]. *)
Theorem X10_unreadable_header (E : env) (img : string) :
  read_header E img = Raise OSError ->
  fits_header_of E img = Ok ∅ /\
  (forall t1 t2 out,
     count_too_long out = false ->
     contains "Did not solve" out = true \/ is_ok (parse_buf out) = true ->
     exists rv, solve_result img t1 t2 ∅ out = Ok rv) /\
  (forall st sd kw w rv w',
     solve_image E img st sd kw w = (Ok rv, w') -> rv !! "hdr" = None).
Proof.
  intros Hread.
  assert (Hf : fits_header_of E img = Ok ∅) by (unfold fits_header_of; by rewrite Hread).
  assert (Hh : header_summary ∅ = Raise KeyError) by reflexivity.
  split; [done|]. split.
  - intros t1 t2 out Hn Hc. apply solve_result_total; [|done|done].
    intros e. rewrite Hh. by intros [= <-].
  - intros st sd kw w rv w' H.
    apply solve_image_inv in H as (h & t1 & t2 & out & Hf' & H).
    rewrite Hf in Hf'. injection Hf' as <-.
    apply solve_result_inv in H as (_ & _ & _ & H & _). by rewrite Hh in H.
Qed.

Lemma X10_unreadable_header_witness :
  fits_header_of headerless_env "m31.fits" = Ok ∅ /\
  (forall t1 t2 out,
     count_too_long out = false ->
     contains "Did not solve" out = true \/ is_ok (parse_buf out) = true ->
     exists rv, solve_result "m31.fits" t1 t2 ∅ out = Ok rv) /\
  (forall st sd kw w rv w',
     solve_image headerless_env "m31.fits" st sd kw w = (Ok rv, w') -> rv !! "hdr" = None).
Proof.
  apply (X10_unreadable_header headerless_env "m31.fits"). reflexivity.
Defined.

(** ** [solve_image] and the working directory, lines 87-112 *)

(** [mkdtemp] under a directory that is there, the name being free. *)
Lemma mkdtemp_spec (E : env) (prefix : string) (dir : path) (w : world)
    (es : gmap string node) :
  lookup_path (fs w) dir = Some (Dir es) ->
  es !! (prefix ++ tmp_suffix E (map fst (map_to_list es)))%string = None ->
  mkdtemp E prefix dir w
  = (Ok (pjoin dir (prefix ++ tmp_suffix E (map fst (map_to_list es)))%string),
     World (replace_dir dir
              (<[(prefix ++ tmp_suffix E (map fst (map_to_list es)))%string := Dir ∅]> es)
              (fs w))
           (ticks w)).
Proof.
  intros Hd Hfree. unfold mkdtemp, bindM, listdir, on_fs. rewrite Hd.
  rewrite (modify_dir_lookup _ _ _ _ Hd), Hfree. reflexivity.
Qed.

(** Nothing can be changed in a directory that is not there. *)
Lemma modify_dir_not_dir (d : path) (f : gmap string node -> result (gmap string node))
    (n : node) :
  (forall es, lookup_path n d <> Some (Dir es)) ->
  modify_dir d f n = Raise OSError.
Proof.
  revert n. induction d as [|x d IH]; intros n Hd.
  - destruct n as [data|es]; [reflexivity|]. by destruct (Hd es).
  - destruct n as [data|es]; [reflexivity|]. cbn [modify_dir]. cbn [lookup_path] in Hd.
    destruct (es !! x) as [c|]; [|reflexivity]. by rewrite (IH c Hd).
Qed.

(** X11. Without a directory [/tmp] nothing is attempted: [solve_image]
    raises the [OSError] of [mkdtemp] before the solver is run, and so
    does [main] on its first file; the world is as it was. *)
Theorem X11_no_tmp (E : env) (w : world) :
  (forall es, lookup_path (fs w) ["tmp"] <> Some (Dir es)) ->
  (forall img st sd kw, solve_image E img st sd kw w = (Raise OSError, w)) /\
  (forall a, test_file a = false -> files a <> [] -> main E a w = (Raise OSError, w)).
Proof.
  intros Hd.
  assert (Hs : forall img st sd kw, solve_image E img st sd kw w = (Raise OSError, w)).
  { intros. unfold solve_image, mkdtemp, bindM, listdir.
    destruct (lookup_path (fs w) ["tmp"]) as [[data|es]|] eqn:Hl; try reflexivity.
    by destruct (Hd es). }
  split; [done|]. intros a Ht Hf. unfold main.
  destruct (files a) as [|f fl]; [done|].
  cbn [main_loop]. unfold bindM at 1. unfold process_file. by rewrite Ht, Hs.
Qed.

Lemma X11_no_tmp_witness :
  (forall img st sd kw, solve_image mixed_env img st sd kw bare_world
                        = (Raise OSError, bare_world)) /\
  (forall a, test_file a = false -> files a <> [] ->
             main mixed_env a bare_world = (Raise OSError, bare_world)).
Proof.
  apply (X11_no_tmp mixed_env bare_world).
  intros es H. vm_compute in H. discriminate.
Defined.

(** The command line of [main] for a working directory under [/tmp]. *)
Lemma guess_scale_args (name f : string) :
  solver_args (render (pjoin ["tmp"] name)) [("guess_scale", IsTrue)] f
  = ["solve-field"; "--dir"; ("/tmp/" ++ name)%string;
     "--temp-dir"; ("/tmp/" ++ name)%string; "--guess-scale"; f].
Proof. reflexivity. Qed.

(** The directory that [mkdtemp] made is there, empty. *)
Lemma fresh_dir_lookup (name : string) (es : gmap string node) (n : node) :
  lookup_path n ["tmp"] = Some (Dir es) ->
  lookup_path (replace_dir ["tmp"] (<[name := Dir ∅]> es) n) ["tmp"; name] = Some (Dir ∅).
Proof.
  intros Hd. change ["tmp"; name] with (["tmp"] ++ [name]).
  rewrite lookup_path_snoc, (lookup_replace_dir _ _ _ _ Hd). apply lookup_insert_eq.
Qed.

(** X12. [main] has the solver run as [solve-field --dir wd --temp-dir wd
    --guess-scale f], [wd] being the fresh directory under [/tmp]. When
    that run cannot be started (the header read, or its reading ended by
    an [OSError]) the exception leaves [solve_image] as it is, after one
    reading of the clock; when the reading of the header raises anything
    else, that exception leaves [solve_image] before the clock is read.
    Either way nothing removes the working directory: it stays behind,
    empty. *)
Theorem X12_failed_launch_leaves_directory (E : env) (a : args) (f : string) (w : world)
    (es : gmap string node) (name : string) :
  test_file a = false ->
  lookup_path (fs w) ["tmp"] = Some (Dir es) ->
  name = ("astrometry_" ++ tmp_suffix E (map fst (map_to_list es)))%string ->
  es !! name = None ->
  (forall h e,
     fits_header_of E f = Ok h ->
     run E ["solve-field"; "--dir"; ("/tmp/" ++ name)%string;
            "--temp-dir"; ("/tmp/" ++ name)%string; "--guess-scale"; f]
           (replace_dir ["tmp"] (<[name := Dir ∅]> es) (fs w)) = Raise e ->
     exists w', process_file E a f w = (Raise e, w') /\
       ticks w' = S (ticks w) /\
       lookup_path (fs w') ["tmp"; name] = Some (Dir ∅)) /\
  (forall e,
     fits_header_of E f = Raise e ->
     exists w', process_file E a f w = (Raise e, w') /\
       ticks w' = ticks w /\
       lookup_path (fs w') ["tmp"; name] = Some (Dir ∅)).
Proof.
  intros Ht Hd -> Hfree. split.
  - intros h e Hhdr Hrun. unfold process_file. rewrite Ht, solve_image_steps.
    rewrite (mkdtemp_spec E "astrometry_" ["tmp"] w es Hd Hfree), Hhdr. cbn [fs ticks].
    rewrite guess_scale_args, Hrun.
    eexists. split; [reflexivity|]. split; [reflexivity|]. by apply fresh_dir_lookup.
  - intros e Hhdr. unfold process_file. rewrite Ht, solve_image_steps.
    rewrite (mkdtemp_spec E "astrometry_" ["tmp"] w es Hd Hfree), Hhdr.
    eexists. split; [reflexivity|]. split; [reflexivity|]. by apply fresh_dir_lookup.
Qed.

Lemma X12_failed_launch_leaves_directory_witness :
  (exists w', process_file broken_env (batch 0 false) "b.fits" demo_world = (Raise OSError, w') /\
     ticks w' = S (ticks demo_world) /\
     lookup_path (fs w') ["tmp"; "astrometry_q7k2"] = Some (Dir ∅)) /\
  (exists w', process_file corrupt_env (batch 0 false) "b.fits" demo_world
              = (Raise ValueError, w') /\
     ticks w' = ticks demo_world /\
     lookup_path (fs w') ["tmp"; "astrometry_q7k2"] = Some (Dir ∅)).
Proof.
  split.
  - apply (proj1 (X12_failed_launch_leaves_directory broken_env (batch 0 false) "b.fits"
                    demo_world ∅ "astrometry_q7k2" eq_refl eq_refl eq_refl eq_refl)
                 example_header OSError); vm_compute; reflexivity.
  - apply (proj2 (X12_failed_launch_leaves_directory corrupt_env (batch 0 false) "b.fits"
                    demo_world ∅ "astrometry_q7k2" eq_refl eq_refl eq_refl eq_refl)
                 ValueError); vm_compute; reflexivity.
Defined.

(** X13. When the solver has returned and its working directory is no
    longer a directory, [solve_image] raises [OSError] instead of
    returning the record, with or without [save_temps]: the listing of
    [rm_rf] and the [open] of line 109 are not guarded. (The header was
    read, or its reading ended by an [OSError].) *)
Theorem X13_working_directory_gone (E : env) (img : string) (st sd : bool)
    (kw : list (string * argval)) (w w1 : world) (wd : path) (out : string) (n : node)
    (h : gmap string scalar) :
  mkdtemp E "astrometry_" ["tmp"] w = (Ok wd, w1) ->
  fits_header_of E img = Ok h ->
  run E (solver_args (render wd) kw img) (fs w1) = Ok (out, n) ->
  (forall es, lookup_path n wd <> Some (Dir es)) ->
  solve_image E img st sd kw w = (Raise OSError, World n (S (S (ticks w)))).
Proof.
  intros Hmk Hhdr Hrun Hgone. rewrite solve_image_steps, Hmk, Hhdr, Hrun.
  destruct (mkdtemp_inv _ _ _ _ _ _ Hmk) as (-> & name & ->).
  destruct st.
  - unfold write_file, pjoin. rewrite split_last_snoc. unfold on_fs. cbn [fs].
    by rewrite (modify_dir_not_dir _ _ _ Hgone).
  - unfold rm_rf, bindM, listdir. cbn [fs].
    destruct (lookup_path n (pjoin ["tmp"] name)) as [[data|es]|] eqn:Hl; try reflexivity.
    by destruct (Hgone es).
Qed.

Lemma X13_working_directory_gone_witness :
  solve_image vanishing_env "m31.fits" false false [("guess_scale", IsTrue)] demo_world
  = (Raise OSError, World (Dir ∅) (S (S (ticks demo_world)))).
Proof.
  apply (X13_working_directory_gone vanishing_env "m31.fits" false false
           [("guess_scale", IsTrue)] demo_world
           (World (Dir {[ "tmp" := Dir {[ "astrometry_q7k2" := Dir ∅ ]} ]}) 0)
           ["tmp"; "astrometry_q7k2"] failed_report (Dir ∅) example_header).
  - vm_compute. reflexivity.
  - reflexivity.
  - vm_compute. reflexivity.
  - intros es H. vm_compute in H. discriminate.
Defined.

(** ** The clock, lines 105-107 *)

Section Ticks.

Context (E : env).







End Ticks.



(** ** Transcripts, lines 160-173 *)

(** X15. With [--test-file] and a file to read, [main] never gets to its
    output: it raises on the first file, the exception of the reading, or
    that of [parse_buf], or else the [KeyError] of line 172, a parsed
    transcript having no [solved]; no other file is read and the world is
    as it was. *)
Theorem X15_transcripts_never_listed (E : env) (a : args) (f : string)
    (rest : list string) (w : world) :
  test_file a = true ->
  files a = f :: rest ->
  main E a w
  = (Raise match read_file E f with
           | Raise e => e
           | Ok text => match parse_buf text with
                        | Raise e => e
                        | Ok _ => KeyError
                        end
           end, w).
Proof.
  intros Ht Hf. unfold main. rewrite Hf. cbn [main_loop].
  unfold process_file. rewrite Ht. unfold bindM, lift, ret.
  destruct (read_file E f) as [text|e]; [|reflexivity].
  destruct (parse_buf text) as [rep|e] eqn:Hp; [|reflexivity].
  unfold getitem. rewrite !lookup_insert_ne by discriminate.
  rewrite (parse_buf_not_own _ _ _ Hp); [reflexivity|].
  rewrite !elem_of_cons. tauto.
Qed.

Lemma X15_transcripts_never_listed_witness :
  main mixed_env (batch 2 true) demo_world
  = (Raise match read_file mixed_env "a.fits" with
           | Raise e => e
           | Ok text => match parse_buf text with
                        | Raise e => e
                        | Ok _ => KeyError
                        end
           end, demo_world).
Proof.
  apply (X15_transcripts_never_listed mixed_env (batch 2 true) "a.fits" ["b.fits"; "c.fits"]);
    reflexivity.
Defined.

(** ** The lists of names, lines 56-59 *)

Section Names.

Implicit Types (s : list ascii) (p : Re.pattern).

(** Each match of a scan is a match of the pattern somewhere in the
    text. *)
Lemma scan_inv p s pos skip m :
  m ∈ Re.scan p s pos skip ->
  exists k : nat, (k <= length s)%nat /\ Re.m_start m = (pos + k)%nat /\
    Re.match_here p [] [] (skipn k s) (pos + k)%nat = Some (Re.m_end m, Re.m_spans m).
Proof.
  revert pos skip. induction s as [|c s IH]; intros pos skip H.
  - destruct skip as [|skip]; cbn [Re.scan] in H; [|by apply elem_of_nil in H].
    destruct (Re.match_here p [] [] [] pos) as [[e sp]|] eqn:Hm;
      [|by apply elem_of_nil in H].
    apply elem_of_cons in H as [->|H]; [|by apply elem_of_nil in H].
    exists 0%nat. cbn. rewrite Nat.add_0_r. auto.
  - assert (Hnext : forall skip', m ∈ Re.scan p s (S pos) skip' ->
              exists k : nat, (k <= length (c :: s))%nat /\ Re.m_start m = (pos + k)%nat /\
                Re.match_here p [] [] (skipn k (c :: s)) (pos + k)%nat
                = Some (Re.m_end m, Re.m_spans m)).
    { intros skip' H'. destruct (IH _ _ H') as (k & Hk & Hs & Hmk).
      exists (S k). cbn [length skipn].
      replace (pos + S k)%nat with (S pos + k)%nat by lia.
      split; [lia | auto]. }
    destruct skip as [|skip]; cbn [Re.scan] in H; [|by apply (Hnext skip)].
    destruct (Re.match_here p [] [] (c :: s) pos) as [[e sp]|] eqn:Hm;
      [|by apply (Hnext 0%nat)].
    apply elem_of_cons in H as [->|H]; [|by apply (Hnext (e - pos - 1)%nat)].
    exists 0%nat. cbn [length skipn Re.m_start Re.m_end Re.m_spans].
    rewrite Nat.add_0_r. split; [lia | auto].
Qed.

(** A repetition before something that always matches matches. *)
Lemma greedy_some k rest s pos :
  (forall s' pos', is_Some (rest s' pos')) -> is_Some (Re.greedy k rest s pos).
Proof.
  intros Hrest. revert pos. induction s as [|c s IH]; intros pos; cbn [Re.greedy].
  - apply Hrest.
  - destruct (Re.in_cls k c); [|apply Hrest].
    destruct (IH (S pos)) as (r & ->). eauto.
Qed.

(** And it takes every character of its class that is there. *)
Lemma greedy_longest k rest s pos r :
  (forall s' pos', is_Some (rest s' pos')) ->
  Re.greedy k rest s pos = Some r ->
  exists n : nat, (n <= length s)%nat /\
    forallb (Re.in_cls k) (firstn n s) = true /\
    match skipn n s with
    | c :: _ => Re.in_cls k c = false
    | [] => True
    end /\
    rest (skipn n s) (pos + n)%nat = Some r.
Proof.
  intros Hrest. revert pos. induction s as [|c s IH]; intros pos H; cbn [Re.greedy] in H.
  - exists 0%nat. cbn. rewrite Nat.add_0_r. auto.
  - destruct (Re.in_cls k c) eqn:Hc.
    + destruct (greedy_some k rest s (S pos) Hrest) as (r' & Hg). rewrite Hg in H.
      injection H as <-. destruct (IH _ Hg) as (n & Hn & Hall & Hstop & Hr).
      exists (S n). cbn [length firstn skipn forallb]. rewrite Hc, Hall.
      replace (pos + S n)%nat with (S pos + n)%nat by lia.
      split; [lia | auto].
    + exists 0%nat. cbn [firstn skipn forallb]. rewrite Nat.add_0_r.
      split; [lia | auto].
Qed.

Lemma string_of_list_ascii_app s1 s2 :
  string_of_list_ascii (s1 ++ s2)
  = (string_of_list_ascii s1 ++ string_of_list_ascii s2)%string.
Proof. induction s1 as [|c s1 IH]; cbn; [reflexivity | by rewrite IH]. Qed.

(** A character that [.] does not match is a line feed. *)
Lemma not_dot_is_nl (c : ascii) (s : list ascii) :
  Re.in_cls Re.Dot c = false -> string_of_list_ascii (c :: s) = (nl ++ string_of_list_ascii s)%string.
Proof.
  cbn [Re.in_cls]. intros H. apply negb_false_iff, Nat.eqb_eq in H.
  assert (Hc : c = ascii_of_nat 10) by (rewrite <- H; symmetry; apply ascii_nat_embedding).
  rewrite Hc. reflexivity.
Qed.

(** A match of a literal followed by [(.+)]: the group is what follows
    the literal, up to the end of the line, and is not empty. *)
Lemma rest_of_line_inv (l : string) (text : string) (k e : nat) (sp : list (nat * nat)) :
  Re.match_here (lit l ++ [Re.GOpen; Re.Plus Re.Dot; Re.GClose]) [] []
    (skipn k (list_ascii_of_string text)) k = Some (e, sp) ->
  let x := match map (fun sp => substring sp.1 (sp.2 - sp.1) text) sp with
           | g :: _ => g
           | [] => ""
           end in
  exists post,
    string_of_list_ascii (skipn k (list_ascii_of_string text)) = (l ++ x ++ post)%string /\
    x <> "" /\
    forallb (Re.in_cls Re.Dot) (list_ascii_of_string x) = true /\
    (post = "" \/ exists post', post = (nl ++ post')%string).
Proof.
  intros Hm.
  apply match_here_lit in Hm as (s1 & Hs1 & Hm).
  cbn [app Re.match_here] in Hm.
  destruct s1 as [|c s2]; [discriminate|].
  destruct (Re.in_cls Re.Dot c) eqn:Hc; [|discriminate].
  apply greedy_longest in Hm as (n & Hn & Hall & Hstop & Hm);
    [|intros s' pos'; cbn [Re.match_here]; eauto].
  cbn [Re.match_here rev app] in Hm. injection Hm as _ <-.
  cbn [map fst snd]. cbv zeta.
  replace (S (k + String.length l + n) - (k + String.length l))%nat with (S n) by lia.
  assert (Hx : list_ascii_of_string (substring (k + String.length l) (S n) text)
               = c :: firstn n s2).
  { rewrite substring_chars.
    replace (k + String.length l)%nat with (String.length l + k)%nat by lia.
    rewrite <- skipn_skipn, Hs1.
    assert (Hl : length (list_ascii_of_string l) = String.length l).
    { clear. induction l as [|a l IH]; cbn; [reflexivity | by rewrite IH]. }
    rewrite <- Hl, skipn_app, skipn_all, Nat.sub_diag. reflexivity. }
  exists (string_of_list_ascii (skipn n s2)).
  split; [|split; [|split]].
  - rewrite Hs1, string_of_list_ascii_app, string_of_list_ascii_of_string. f_equal.
    rewrite <- (string_of_list_ascii_of_string (substring _ _ text)), Hx.
    rewrite <- string_of_list_ascii_app. cbn [app]. by rewrite firstn_skipn.
  - intros H0. rewrite H0 in Hx. discriminate.
  - rewrite Hx. cbn [forallb]. by rewrite Hc, Hall.
  - destruct (skipn n s2) as [|c' s3]; [by left|]. right.
    exists (string_of_list_ascii s3). by apply not_dot_is_nl.
Qed.

End Names.

(** X16. Every entry of [stars] is the rest of a line after the words
    [The star ]: it is not empty, has no line feed, and what follows it
    in the text is a line feed or nothing. The entries of
    [constellations] are the same after [The constellation ] or [the
    constellation ]. *)
Theorem X16_names_are_rests_of_lines (b x : string) :
  (x ∈ Re.findall re_star b ->
   exists pre post, b = (pre ++ "The star " ++ x ++ post)%string /\
     x <> "" /\ forallb (Re.in_cls Re.Dot) (list_ascii_of_string x) = true /\
     (post = "" \/ exists post', post = (nl ++ post')%string)) /\
  (x ∈ Re.findall re_constellation b ->
   exists pre post,
     (b = (pre ++ "The constellation " ++ x ++ post)%string \/
      b = (pre ++ "the constellation " ++ x ++ post)%string) /\
     x <> "" /\ forallb (Re.in_cls Re.Dot) (list_ascii_of_string x) = true /\
     (post = "" \/ exists post', post = (nl ++ post')%string)).
Proof.
  assert (Hsplit : forall k : nat,
            b = (string_of_list_ascii (firstn k (list_ascii_of_string b))
                 ++ string_of_list_ascii (skipn k (list_ascii_of_string b)))%string).
  { intros k. by rewrite <- string_of_list_ascii_app, firstn_skipn,
                string_of_list_ascii_of_string. }
  split; unfold Re.findall; intros H;
    apply list_elem_of_fmap in H as (m & -> & H);
    apply scan_inv in H as (k & _ & _ & Hm); change (0 + k)%nat with k in Hm.
  - apply rest_of_line_inv in Hm as (post & Hb & Hne & Hall & Hpost).
    unfold Re.group1, Re.groups.
    exists (string_of_list_ascii (firstn k (list_ascii_of_string b))), post.
    split; [|done]. rewrite <- Hb. apply Hsplit.
  - unfold re_constellation in Hm. cbn [app Re.match_here] in Hm.
    destruct (skipn k (list_ascii_of_string b)) as [|c s1] eqn:Hs; [discriminate|].
    destruct (Re.in_cls _ c) eqn:Hc; [|discriminate].
    assert (Hs1 : s1 = skipn (S k) (list_ascii_of_string b)).
    { replace (S k) with (1 + k)%nat by lia. by rewrite <- skipn_skipn, Hs. }
    rewrite Hs1 in Hm.
    assert (Hsp : forall e sp,
              Re.match_here (lit "he constellation " ++ [Re.GOpen; Re.Plus Re.Dot; Re.GClose])
                [] [] (skipn (S k) (list_ascii_of_string b)) (S k) = Some (e, sp) ->
              Re.group1 b (Re.MObj k e sp)
              = match map (fun sp => substring sp.1 (sp.2 - sp.1) b) sp with
                | g :: _ => g
                | [] => ""
                end) by reflexivity.
    destruct (Re.match_here _ [] [] (skipn (S k) (list_ascii_of_string b)) (S k))
      as [[e sp]|] eqn:Hm'; [|discriminate].
    injection Hm as He Hspans.
    apply rest_of_line_inv in Hm' as (post & Hb & Hne & Hall & Hpost).
    assert (Hg : Re.group1 b m
                 = match map (fun sp => substring sp.1 (sp.2 - sp.1) b) sp with
                   | g :: _ => g
                   | [] => ""
                   end).
    { unfold Re.group1, Re.groups. by rewrite <- Hspans. }
    rewrite Hg.
    exists (string_of_list_ascii (firstn k (list_ascii_of_string b))), post.
    split; [|done].
    assert (Hb' : b = (string_of_list_ascii (firstn k (list_ascii_of_string b))
                       ++ String c ("he constellation "
                                    ++ match map (fun sp => substring sp.1 (sp.2 - sp.1) b) sp with
                                       | g :: _ => g
                                       | [] => ""
                                       end ++ post))%string).
    { rewrite <- Hb, <- Hs1.
      change (String c (string_of_list_ascii s1)) with (string_of_list_ascii (c :: s1)).
      rewrite <- Hs. apply Hsplit. }
    assert (Hc' : c = "T"%char \/ c = "t"%char).
    { cbn [Re.in_cls existsb] in Hc. unfold Re.in_range in Hc. cbn [fst snd] in Hc.
      rewrite orb_false_r in Hc.
      apply orb_true_iff in Hc as [Hc|Hc];
        apply andb_true_iff in Hc as [Hc1 Hc2];
        apply Nat.leb_le in Hc1, Hc2.
      - left. rewrite <- (ascii_nat_embedding c).
        change (nat_of_ascii "T") with 84%nat in Hc1, Hc2.
        replace (nat_of_ascii c) with 84%nat by lia. reflexivity.
      - right. rewrite <- (ascii_nat_embedding c).
        change (nat_of_ascii "t") with 116%nat in Hc1, Hc2.
        replace (nat_of_ascii c) with 116%nat by lia. reflexivity. }
    destruct Hc' as [-> | ->]; [left|right]; exact Hb'.
Qed.

Lemma X16_names_are_rests_of_lines_witness :
  exists pre post, example_report = (pre ++ "The star " ++ "Polaris" ++ post)%string /\
    "Polaris" <> "" /\ forallb (Re.in_cls Re.Dot) (list_ascii_of_string "Polaris") = true /\
    (post = "" \/ exists post', post = (nl ++ post')%string).
Proof.
  apply (X16_names_are_rests_of_lines example_report "Polaris").
  vm_compute. apply list_elem_of_here.
Defined.
